(** * etymology-db: relation records, construct interpreters, chain normalizer

    A shallow embedding of [elements.py], [templates.py] and the wikicode
    passes of [main.py], followed by the properties established about them.

    Conventions.
    - Python [str] is [string] (a byte string); whitespace, case folding and
      digit classes are the ASCII ones.
    - Python [int] is [Z]; [None]-able attributes are [option].
    - A raised exception is the [Raise] branch of [result]. *)

From Stdlib Require Import String Ascii List ZArith Bool Lia DecimalString.
Import ListNotations.
Open Scope string_scope.
Open Scope Z_scope.
Open Scope list_scope.

(* ================================================================== *)
(** * Python runtime fragments used by the sources *)
(* ================================================================== *)

Module Py.

(** Exceptions the modelled code can raise. *)
Inductive exn : Type :=
| IndexError
| AttributeError
| ValueError.

Inductive result (A : Type) : Type :=
| Return (a : A)
| Raise (e : exn).
Arguments Return {A} a.
Arguments Raise {A} e.

Definition bind {A B : Type} (m : result A) (k : A -> result B) : result B :=
  match m with
  | Return a => k a
  | Raise e => Raise e
  end.

(** [len(l)] *)
Definition len {A : Type} (l : list A) : Z := Z.of_nat (length l).

(** [l[k]], negative [k] counting from the end. *)
Definition index {A : Type} (l : list A) (k : Z) : result A :=
  let k' := if k <? 0 then k + len l else k in
  if k' <? 0 then Raise IndexError
  else match nth_error l (Z.to_nat k') with
       | Some a => Return a
       | None => Raise IndexError
       end.

(** Normalisation of one slice bound against a length. *)
Definition clamp (n : Z) (k : Z) : Z :=
  let k' := if k <? 0 then k + n else k in
  if k' <? 0 then 0 else if n <? k' then n else k'.

(** [l[start:stop]] with unit step; [stop = None] is an omitted bound. *)
Definition slice {A : Type} (l : list A) (start : Z) (stop : option Z) : list A :=
  let n := len l in
  let lo := clamp n start in
  let hi := match stop with Some s => clamp n s | None => n end in
  firstn (Z.to_nat (hi - lo)) (skipn (Z.to_nat lo) l).

(** A [for] loop building a list, stopping at the first exception. *)
Fixpoint for_each {A B : Type} (f : A -> result B) (l : list A) : result (list B) :=
  match l with
  | [] => Return []
  | a :: l' =>
      match f a with
      | Raise e => Raise e
      | Return b =>
          match for_each f l' with
          | Raise e => Raise e
          | Return bs => Return (b :: bs)
          end
      end
  end.

(** [enumerate(l)] *)
Fixpoint enumerate_from {A : Type} (k : Z) (l : list A) : list (Z * A) :=
  match l with
  | [] => []
  | a :: l' => (k, a) :: enumerate_from (k + 1) l'
  end.
Definition enumerate {A : Type} (l : list A) : list (Z * A) := enumerate_from 0 l.

(** [x in l] for a list of integers. *)
Definition mem (x : Z) (l : list Z) : bool := existsb (Z.eqb x) l.

(** ** Strings *)

(** Characters removed by [str.strip()] (ASCII range). *)
Definition is_space (c : ascii) : bool :=
  let n := nat_of_ascii c in
  ((9 <=? n) && (n <=? 13) || (28 <=? n) && (n <=? 32))%nat.

Fixpoint lstrip (s : string) : string :=
  match s with
  | String c s' => if is_space c then lstrip s' else s
  | EmptyString => EmptyString
  end.

Fixpoint rstrip (s : string) : string :=
  match s with
  | EmptyString => EmptyString
  | String c s' =>
      match rstrip s' with
      | EmptyString => if is_space c then EmptyString else String c EmptyString
      | r => String c r
      end
  end.

Definition strip (s : string) : string := rstrip (lstrip s).

(** Truth value of a string. *)
Definition truthy (s : string) : bool := negb (String.eqb s "").

(** Truth value of an optional string attribute. *)
Definition truthy_opt (s : option string) : bool :=
  match s with
  | Some v => truthy v
  | None => false
  end.

Fixpoint contains_char (c : ascii) (s : string) : bool :=
  match s with
  | EmptyString => false
  | String d s' => Ascii.eqb c d || contains_char c s'
  end.

(** Number of characters [repr] prints for one character of a string
    delimited by [quote]. *)
Definition repr_char_len (quote : ascii) (c : ascii) : Z :=
  let n := nat_of_ascii c in
  if Ascii.eqb c quote || Ascii.eqb c "\"%char then 2
  else if (n =? 9)%nat || (n =? 10)%nat || (n =? 13)%nat then 2
  else if (n <? 32)%nat || (n =? 127)%nat then 4
  else 1.

Fixpoint repr_body_len (quote : ascii) (s : string) : Z :=
  match s with
  | EmptyString => 0
  | String c s' => repr_char_len quote c + repr_body_len quote s'
  end.

(** [len(repr(s))]: the two delimiters and the escaped body; the delimiter
    is the double quote exactly when [s] has a single quote and no double
    quote. *)
Definition repr_len (s : string) : Z :=
  let dquote := ascii_of_nat 34 in
  let quote :=
    if contains_char "'"%char s && negb (contains_char dquote s)
    then dquote else "'"%char in
  2 + repr_body_len quote s.

(** [len(str(l))] for a list whose elements render through [repr]:
    brackets, elements, and a two-character separator between elements. *)
Definition str_list_len (l : list string) : Z :=
  match l with
  | [] => 2
  | x :: r => 2 + repr_len x + fold_right (fun y acc => 2 + repr_len y + acc) 0 r
  end.

Definition is_digit (c : ascii) : bool :=
  let n := nat_of_ascii c in ((48 <=? n) && (n <=? 57))%nat.

Definition is_upper (c : ascii) : bool :=
  let n := nat_of_ascii c in ((65 <=? n) && (n <=? 90))%nat.

Definition is_lower (c : ascii) : bool :=
  let n := nat_of_ascii c in ((97 <=? n) && (n <=? 122))%nat.

(** [\w] *)
Definition is_word (c : ascii) : bool :=
  is_digit c || is_upper c || is_lower c || Ascii.eqb c "_"%char.

Definition lower_char (c : ascii) : ascii :=
  if is_upper c then ascii_of_nat (nat_of_ascii c + 32) else c.

(** [s.lower()] *)
Fixpoint lower (s : string) : string :=
  match s with
  | EmptyString => EmptyString
  | String c s' => String (lower_char c) (lower s')
  end.

(** [re.sub("[^a-z]+", "", s)] : every maximal run of characters outside
    [a-z] is deleted, which keeps exactly the characters in [a-z]. *)
Fixpoint sub_non_lower (s : string) : string :=
  match s with
  | EmptyString => EmptyString
  | String c s' => if is_lower c then String c (sub_non_lower s') else sub_non_lower s'
  end.

End Py.

Import Py.

Notation "x <- m ;; k" := (Py.bind m (fun x => k))
  (at level 61, m at next level, right associativity).

(* ================================================================== *)
(** * elements.py *)
(* ================================================================== *)

Module Elements.

(** [@dataclass(frozen=True) class Etymology] *)
Record Etymology : Type := mkEtymology {
  lang : string;
  term : string;
  reltype : string;
  related_lang : option string;
  related_term : option string;
  definition_num : Z;
  position : Z;
  group_tag : option string;
  parent_tag : option string;
  parent_position : option Z
}.

(** The constructor call with the dataclass defaults
    [position=0, group_tag=None, parent_tag=None, parent_position=None]. *)
Definition new (term lang reltype : string) (related_lang related_term : option string)
           (definition_num position : Z) : Etymology :=
  {| lang := lang; term := term; reltype := reltype;
     related_lang := related_lang; related_term := related_term;
     definition_num := definition_num; position := position;
     group_tag := None; parent_tag := None; parent_position := None |}.

(** [Etymology.with_parent] *)
Definition with_parent (child parent : Etymology) (position' : Z) : Etymology :=
  {| lang := lang child; term := term child; reltype := reltype child;
     related_lang := related_lang child; related_term := related_term child;
     definition_num := definition_num child; position := position child;
     group_tag := group_tag child;
     parent_tag := group_tag parent; parent_position := Some position' |}.

(** [Etymology.is_valid]: [self.related_term not in ("", "-")] *)
Definition is_valid (e : Etymology) : bool :=
  match related_term e with
  | Some s => negb (String.eqb s "" || String.eqb s "-")
  | None => true
  end.

(** [Etymology.generate_root_tag] *)

Definition b64_alphabet : string :=
  "ABCDEFGHIJKLMNOPQRSTUVWXYZabcdefghijklmnopqrstuvwxyz0123456789-_".

Definition b64_char (k : Z) : ascii :=
  nth (Z.to_nat k) (list_ascii_of_string b64_alphabet) "="%char.

(** [base64.urlsafe_b64encode] on a sequence of byte values. *)
Fixpoint urlsafe_b64encode (bs : list Z) : string :=
  match bs with
  | [] => ""
  | [a] =>
      let n := Z.shiftl a 16 in
      String (b64_char (Z.shiftr n 18))
        (String (b64_char (Z.land (Z.shiftr n 12) 63)) "==")
  | [a; b] =>
      let n := Z.lor (Z.shiftl a 16) (Z.shiftl b 8) in
      String (b64_char (Z.shiftr n 18))
        (String (b64_char (Z.land (Z.shiftr n 12) 63))
           (String (b64_char (Z.land (Z.shiftr n 6) 63)) "="))
  | a :: b :: c :: rest =>
      let n := Z.lor (Z.shiftl a 16) (Z.lor (Z.shiftl b 8) c) in
      String (b64_char (Z.shiftr n 18))
        (String (b64_char (Z.land (Z.shiftr n 12) 63))
           (String (b64_char (Z.land (Z.shiftr n 6) 63))
              (String (b64_char (Z.land n 63)) (urlsafe_b64encode rest))))
  end.

(** [s.rstrip("=")] *)
Fixpoint rstrip_eq (s : string) : string :=
  match s with
  | EmptyString => EmptyString
  | String c s' =>
      match rstrip_eq s' with
      | EmptyString => if Ascii.eqb c "="%char then EmptyString else String c EmptyString
      | r => String c r
      end
  end.

(** The bytes of [uuid.uuid4()] from 16 random bytes: version and variant
    bits are forced. *)
Definition uuid4_bytes (random : list Z) : list Z :=
  map (fun kb : Z * Z =>
         let (k, b) := kb in
         if k =? 6 then Z.lor (Z.land b 15) 64
         else if k =? 8 then Z.lor (Z.land b 63) 128
         else b)
      (enumerate random).

(** The tag drawn from 16 random bytes.  Neither [templates.py] nor
    [main.py] calls this function. *)
Definition generate_root_tag (random : list Z) : string :=
  rstrip_eq (urlsafe_b64encode (uuid4_bytes random)).

End Elements.

Import Elements.

(* ================================================================== *)
(** * The parsed markup tree (mwparserfromhell nodes) *)
(* ================================================================== *)

Module Mwp.

Local Open Scope string_scope.

(** The node kinds the sources discriminate on ([Param] is the library's
    [Parameter]).  A template or wikilink name
    and a heading title are kept as their string rendering, which is all the
    sources read of them; every other node kind (tag, comment, external
    link, ...) is [Other] with its rendering. *)
#[local] Unset Elimination Schemes.
Inductive Node : Type :=
| Text (value : string)
| Wikilink (title : string) (text : option (list Node))
| TemplateNode (t : Template)
| Heading (title : string) (level : nat)
| Other (raw : string)
with Template : Type :=
| mkTemplate (name : string) (params : list Param)
with Param : Type :=
| mkParam (pname : string) (value : list Node) (showkey : bool).
#[local] Set Elimination Schemes.

Definition Wikicode : Type := list Node.

Definition name (t : Template) : string := match t with mkTemplate n _ => n end.
Definition params (t : Template) : list Param := match t with mkTemplate _ ps => ps end.
Definition pname (p : Param) : string := match p with mkParam n _ _ => n end.
Definition value (p : Param) : Wikicode := match p with mkParam _ v _ => v end.
Definition showkey (p : Param) : bool := match p with mkParam _ _ k => k end.

Fixpoint repeat_eq (n : nat) : string :=
  match n with
  | O => ""
  | S n' => "=" ++ repeat_eq n'
  end.

(** [str(node)], [str(template)], [str(parameter)] *)
Fixpoint str_node (n : Node) : string :=
  match n with
  | Text v => v
  | Wikilink t None => "[[" ++ t ++ "]]"
  | Wikilink t (Some w) =>
      "[[" ++ t ++ "|" ++
      (fix go (l : list Node) : string :=
         match l with
         | [] => ""
         | x :: r => str_node x ++ go r
         end) w ++ "]]"
  | TemplateNode t => str_template t
  | Heading t lvl => repeat_eq lvl ++ t ++ repeat_eq lvl
  | Other raw => raw
  end
with str_template (t : Template) : string :=
  match t with
  | mkTemplate nm [] => "{{" ++ nm ++ "}}"
  | mkTemplate nm ps =>
      "{{" ++ nm ++ "|" ++
      (fix join (l : list Param) : string :=
         match l with
         | [] => ""
         | [p] => str_parameter p
         | p :: r => str_parameter p ++ "|" ++ join r
         end) ps ++ "}}"
  end
with str_parameter (p : Param) : string :=
  match p with
  | mkParam k v sk =>
      (if sk then k ++ "=" else "") ++
      (fix go (l : list Node) : string :=
         match l with
         | [] => ""
         | x :: r => str_node x ++ go r
         end) v
  end.

(** [str(wikicode)] *)
Definition str_wikicode (w : Wikicode) : string :=
  fold_right (fun n acc => str_node n ++ acc) "" w.

Definition is_template (n : Node) : bool :=
  match n with TemplateNode _ => true | _ => false end.

(** [wikicode.filter_templates(recursive=False)] *)
Fixpoint filter_templates (w : Wikicode) : list Template :=
  match w with
  | [] => []
  | TemplateNode t :: w' => t :: filter_templates w'
  | _ :: w' => filter_templates w'
  end.

(** Structural induction on nodes, through construct arguments and link
    texts. *)
Section NodeInduction.

Variable P : Node -> Prop.
Hypothesis HText : forall v, P (Text v).
Hypothesis HBareLink : forall t, P (Wikilink t None).
Hypothesis HLink : forall t w, Forall P w -> P (Wikilink t (Some w)).
Hypothesis HTemplate :
  forall nm ps, Forall (fun q => Forall P (value q)) ps -> P (TemplateNode (mkTemplate nm ps)).
Hypothesis HHeading : forall t lvl, P (Heading t lvl).
Hypothesis HOther : forall raw, P (Other raw).

Fixpoint Node_induction (n : Node) : P n :=
  match n with
  | Text v => HText v
  | Wikilink t None => HBareLink t
  | Wikilink t (Some w) =>
      HLink t w
        ((fix all (l : list Node) : Forall P l :=
            match l with
            | [] => Forall_nil P
            | x :: r => Forall_cons x (Node_induction x) (all r)
            end) w)
  | TemplateNode (mkTemplate nm ps) =>
      HTemplate nm ps
        ((fix all_params (l : list Param) : Forall (fun q => Forall P (value q)) l :=
            match l with
            | [] => Forall_nil _
            | q :: r =>
                Forall_cons q
                  (match q return Forall P (value q) with
                   | mkParam _ v _ =>
                       (fix all (l : list Node) : Forall P l :=
                          match l with
                          | [] => Forall_nil P
                          | x :: r => Forall_cons x (Node_induction x) (all r)
                          end) v
                   end)
                  (all_params r)
            end) ps)
  | Heading t lvl => HHeading t lvl
  | Other raw => HOther raw
  end.

End NodeInduction.

End Mwp.

Import Mwp.

(* ================================================================== *)
(** * templates.py *)
(* ================================================================== *)

Module Templates.

(** [class RelType(Enum)] *)
Inductive RelType : Type :=
| Inherited | Derived | Borrowed | LearnedBorrowing | SemiLearnedBorrowing
| OrthographicBorrowing | UnadaptedBorrowing | Root | Affix | Prefix
| PrefixRoot | Suffix | SuffixRoot | Confix | Compound | Blend
| Abbreviation | Initialism | Clipping | BackForm | Doublet | Onomatopoeia
| Calque | SemanticLoan | NamedAfter | PhonoSemanticMatching | Mention
| Cognate | GroupAffix | GroupMention | GroupDerived.

(** [RelType.X.value] *)
Definition rel_value (r : RelType) : string :=
  match r with
  | Inherited => "inherited_from"
  | Derived => "derived_from"
  | Borrowed => "borrowed_from"
  | LearnedBorrowing => "learned_borrowing_from"
  | SemiLearnedBorrowing => "semi_learned_borrowing_from"
  | OrthographicBorrowing => "orthographic_borrowing_from"
  | UnadaptedBorrowing => "unadapted_borrowing_from"
  | Root => "has_root"
  | Affix => "has_affix"
  | Prefix => "has_prefix"
  | PrefixRoot => "has_prefix_with_root"
  | Suffix => "has_suffix"
  | SuffixRoot => "has_prefix_with_root"
  | Confix => "has_confix"
  | Compound => "compound_of"
  | Blend => "blend_of"
  | Abbreviation => "abbreviation_of"
  | Initialism => "initialism_of"
  | Clipping => "clipping_of"
  | BackForm => "back-formation_from"
  | Doublet => "doublet_with"
  | Onomatopoeia => "is_onomatopoeic"
  | Calque => "calque_of"
  | SemanticLoan => "semantic_loan_of"
  | NamedAfter => "named_after"
  | PhonoSemanticMatching => "phono-semantic_matching_of"
  | Mention => "etymologically_related_to"
  | Cognate => "cognate_of"
  | GroupAffix => "group_affix_root"
  | GroupMention => "group_related_root"
  | GroupDerived => "group_derived_root"
  end.

(** What an interpreter hands back: one record or a list of records. *)
Inductive Parsed : Type :=
| One (e : Etymology)
| Many (l : list Etymology).

(** [[param for param in template.params if not param.showkey]] *)
Definition positional (template : Template) : list Param :=
  filter (fun param => negb (showkey param)) (params template).

(** [str(p[k])] *)
Definition str_at (p : list Param) (k : Z) : result string :=
  x <- index p k ;; Return (str_parameter x).

(** The interpreters that read (lang, source lang, source word). *)
Definition source_pair (rt : RelType) (term lang : string) (template : Template) (i : Z)
  : result Parsed :=
  let p := positional template in
  if len p <? 3 then Return (Many [])
  else
    rl <- str_at p 1 ;;
    rw <- str_at p 2 ;;
    Return (One (new term lang (rel_value rt) (Some rl) (Some rw) i 0)).

Definition derived := source_pair Derived.
Definition borrowed := source_pair Borrowed.
Definition learned_borrowing := source_pair LearnedBorrowing.
Definition semi_learned_borrowing := source_pair SemiLearnedBorrowing.
Definition unadapted_borrowing := source_pair UnadaptedBorrowing.
Definition orthographic_borrowing := source_pair OrthographicBorrowing.
Definition inherited := source_pair Inherited.
Definition calque := source_pair Calque.
Definition semantic_loan := source_pair SemanticLoan.
Definition phono_semantic_matching := source_pair PhonoSemanticMatching.

(** The interpreters that read (lang, source word). *)
Definition lang_word (rt : RelType) (term lang : string) (template : Template) (i : Z)
  : result Parsed :=
  let p := positional template in
  if len p <? 2 then Return (Many [])
  else
    rl <- str_at p 0 ;;
    rw <- str_at p 1 ;;
    Return (One (new term lang (rel_value rt) (Some rl) (Some rw) i 0)).

Definition clipping := lang_word Clipping.
Definition abbreviation := lang_word Abbreviation.
Definition initialism := lang_word Initialism.
Definition back_form := lang_word BackForm.
Definition named_after := lang_word NamedAfter.
Definition mention := lang_word Mention.
Definition cognate := lang_word Cognate.
Definition non_cognate := lang_word Mention.

(** [root]: the loop runs over [p[2:]] and reads [p[1]] in its body. *)
Definition root (term lang : string) (template : Template) (i : Z) : result Parsed :=
  let p := positional template in
  etys <- for_each (fun jr : Z * Param =>
            let (j, r) := jr in
            rl <- str_at p 1 ;;
            Return (new term lang (rel_value Root) (Some rl) (Some (str_parameter r)) i j))
          (enumerate (slice p 2 None)) ;;
  Return (Many etys).

(** [pie_root]: the loop runs over [p[1:]] with the fixed language code. *)
Definition pie_root (term lang : string) (template : Template) (i : Z) : result Parsed :=
  let p := positional template in
  etys <- for_each (fun jr : Z * Param =>
            let (j, r) := jr in
            Return (new term lang (rel_value Root) (Some "ine-pro") (Some (str_parameter r)) i j))
          (enumerate (slice p 1 None)) ;;
  Return (Many etys).

(** The interpreters that read (lang, part 1, ..., part n): the loop runs
    over [p[1:]] and reads [p[0]] in its body. *)
Definition part_list (rt : RelType) (term lang : string) (template : Template) (i : Z)
  : result Parsed :=
  let p := positional template in
  etys <- for_each (fun jr : Z * Param =>
            let (j, r) := jr in
            rl <- str_at p 0 ;;
            Return (new term lang (rel_value rt) (Some rl) (Some (str_parameter r)) i j))
          (enumerate (slice p 1 None)) ;;
  Return (Many etys).

Definition affix := part_list Affix.
Definition compound := part_list Compound.
Definition blend := part_list Blend.
Definition doublet := part_list Doublet.

Definition prefix (term lang : string) (template : Template) (i : Z) : result Parsed :=
  let p := positional template in
  l0 <- str_at p 0 ;;
  w1 <- str_at p 1 ;;
  let pre := new term lang (rel_value Prefix) (Some l0) (Some w1) i 0 in
  if 2 <? len p then
    w2 <- str_at p 2 ;;
    if truthy w2 then
      l0' <- str_at p 0 ;;
      w2' <- str_at p 2 ;;
      Return (Many [pre; new term lang (rel_value PrefixRoot) (Some l0') (Some w2') i 0])
    else Return (One pre)
  else Return (One pre).

Definition confix (term lang : string) (template : Template) (i : Z) : result Parsed :=
  let p := positional template in
  l0 <- str_at p 0 ;;
  w1 <- str_at p 1 ;;
  let first := new term lang (rel_value Confix) (Some l0) (Some w1) i 0 in
  middle <- for_each (fun jr : Z * Param =>
              let (j, r) := jr in
              rl <- str_at p 0 ;;
              Return (new term lang (rel_value Confix) (Some rl) (Some (str_parameter r)) i (j + 1)))
            (enumerate (slice p 2 (Some (-1)))) ;;
  l0' <- str_at p 0 ;;
  wl <- str_at p (-1) ;;
  let last := new term lang (rel_value Confix) (Some l0') (Some wl) i (len p - 2) in
  Return (Many (first :: middle ++ [last])).

(** [suffix]: the guard measures [len(str(p))], the length of the list's
    rendering. *)
Definition suffix (term lang : string) (template : Template) (i : Z) : result Parsed :=
  let p := positional template in
  if str_list_len (map str_parameter p) <? 3 then Return (Many [])
  else
    l0 <- str_at p 0 ;;
    w2 <- str_at p 2 ;;
    let suf := new term lang (rel_value Suffix) (Some l0) (Some w2) i 0 in
    l0' <- str_at p 0 ;;
    w1 <- str_at p 1 ;;
    let root := new term lang (rel_value SuffixRoot) (Some l0') (Some w1) i 0 in
    Return (Many [root; suf]).

Definition onomatopoeic (term lang : string) (template : Template) (i : Z) : result Parsed :=
  let p := positional template in
  l0 <- str_at p 0 ;;
  Return (One (new term lang (rel_value Onomatopoeia) (Some l0) (Some term) i 0)).

Definition derived_parsed (term lang : string) (template : Template) (i : Z) : result Parsed :=
  let p := positional template in
  rl <- str_at p 1 ;;
  rw <- str_at p 2 ;;
  Return (One (new term lang (rel_value Derived) (Some rl) (Some rw) i 0)).

(** [default_func = lambda x, y, z, a: []] *)
Definition default_func (term lang : string) (template : Template) (i : Z) : result Parsed :=
  Return (Many []).

(** The functions the dispatch table maps names to. *)
Inductive parser_func : Type :=
| f_inherited | f_derived | f_borrowed | f_learned_borrowing
| f_orthographic_borrowing | f_semi_learned_borrowing | f_unadapted_borrowing
| f_pie_root | f_root | f_affix | f_prefix | f_confix | f_suffix | f_compound
| f_blend | f_clipping | f_back_form | f_doublet | f_onomatopoeic | f_calque
| f_semantic_loan | f_named_after | f_phono_semantic_matching | f_mention
| f_cognate | f_non_cognate | f_derived_parsed | f_affix_parsed
| f_from_parsed | f_related_parsed | f_abbreviation | f_initialism
| f_default_func.

(** [parse_dict] of [get_template_parser] *)
Definition parse_dict : list (string * parser_func) :=
  [ ("inherited", f_inherited); ("inh", f_inherited);
    ("derived", f_derived); ("der", f_derived);
    ("borrowed", f_borrowed); ("bor", f_borrowed);
    ("learned borrowing", f_learned_borrowing);
    ("learned_borrowing", f_learned_borrowing);
    ("lbor", f_learned_borrowing);
    ("orthographic borrowing", f_orthographic_borrowing);
    ("obor", f_orthographic_borrowing);
    ("slbor", f_semi_learned_borrowing);
    ("unadapted borrowing", f_unadapted_borrowing);
    ("ubor", f_unadapted_borrowing);
    ("PIE root", f_pie_root);
    ("root", f_root);
    ("affix", f_affix); ("af", f_affix);
    ("prefix", f_prefix); ("pre", f_prefix);
    ("confix", f_confix);
    ("suffix", f_suffix); ("suf", f_suffix);
    ("compound", f_compound); ("com", f_compound);
    ("blend", f_blend);
    ("clipping", f_clipping); ("clipping of", f_clipping);
    ("back_form", f_back_form); ("back-form", f_back_form);
    ("back-formation", f_back_form);
    ("doublet", f_doublet);
    ("onomatopoeic", f_onomatopoeic); ("onom", f_onomatopoeic);
    ("calque", f_calque); ("cal", f_calque);
    ("semantic loan", f_semantic_loan);
    ("named-after", f_named_after);
    ("phono-semantifc matching", f_phono_semantic_matching);
    ("psm", f_phono_semantic_matching);
    ("mention", f_mention); ("m", f_mention);
    ("cognate", f_cognate); ("cog", f_cognate);
    ("noncognate", f_non_cognate); ("noncog", f_non_cognate);
    ("ncog", f_non_cognate);
    ("langname-mention", f_mention); ("m+", f_mention);
    ("link", f_mention); ("l", f_mention);
    ("derived-parsed", f_derived_parsed);
    ("affix-parsed", f_affix_parsed);
    ("from-parsed", f_from_parsed);
    ("related-parsed", f_related_parsed);
    ("abbreviation of", f_abbreviation);
    ("initialism of", f_initialism);
    ("w", f_default_func); ("wikipedia", f_default_func);
    ("dercat", f_default_func);
    ("rel-top", f_default_func); ("rel-bottom", f_default_func);
    ("small", f_default_func); ("section link", f_default_func);
    ("CE", f_default_func); ("C.E.", f_default_func); ("B.C.E.", f_default_func);
    ("gloss", f_default_func); ("glossary", f_default_func);
    ("unk", f_default_func); ("unknown", f_default_func);
    ("etystub", f_default_func); ("nonlemma", f_default_func);
    ("rfe", f_default_func); ("IPAchar", f_default_func);
    ("ja-l", f_default_func); ("ja-r", f_default_func);
    ("ja-kanjitab", f_default_func);
    ("sense", f_default_func); ("senseid", f_default_func);
    ("senseid-close", f_default_func); ("defdate", f_default_func);
    ("qualifier", f_default_func); ("nb...", f_default_func);
    ("rfv-etym", f_default_func); ("inflection of", f_default_func) ].

(** [parse_dict.get(template_name)] *)
Definition get_template_parser (template_name : string) : option parser_func :=
  match find (fun kv => String.eqb (fst kv) template_name) parse_dict with
  | Some kv => Some (snd kv)
  | None => None
  end.

(** One [logging.warning] of [parse_template]: the term, the language and
    the rendering of the construct. *)
Record LogRecord : Type := mkLog {
  log_term : string;
  log_lang : string;
  log_wikicode : string
}.

Section Unnest.

(** The recursive call [parse_template(str(child.name), term, lang, child, i)],
    with the records and the warnings it produces. *)
Variable parse_child : Template -> list Etymology * list LogRecord.

(** The loop state of [unnest_template]: [parent_index], [etys], and the
    warnings logged so far. *)
Definition unnest_state : Type := Z * list Etymology * list LogRecord.

(** The body of [for child_ety in child_etys]. *)
Definition adopt (parent_ety : Etymology) (parent_index : Z) (child_ety : Etymology)
  : Etymology :=
  if truthy_opt (parent_tag child_ety) then child_ety
  else with_parent child_ety parent_ety parent_index.

(** [for child_template in p.value.filter_templates(recursive=False)] *)
Fixpoint unnest_nodes (parent_ety : Etymology) (ns : list Node) (st : unnest_state)
  : unnest_state :=
  match ns with
  | [] => st
  | TemplateNode child_template :: ns' =>
      let '(parent_index, etys, log) := st in
      let (child_etys, child_log) := parse_child child_template in
      unnest_nodes parent_ety ns'
        (parent_index + 1,
         etys ++ map (adopt parent_ety parent_index) child_etys,
         log ++ child_log)
  | _ :: ns' => unnest_nodes parent_ety ns' st
  end.

(** [for p in template.params] *)
Fixpoint unnest_params (parent_ety : Etymology) (ps : list Param) (st : unnest_state)
  : unnest_state :=
  match ps with
  | [] => st
  | mkParam _ v _ :: ps' => unnest_params parent_ety ps' (unnest_nodes parent_ety v st)
  end.

Definition unnest_template (term lang : string) (template : Template) (reltype : RelType)
           (i : Z) : list Etymology * list LogRecord :=
  let parent_ety := new term lang (rel_value reltype) None None i 0 in
  match template with
  | mkTemplate _ ps =>
      let '(_, etys, log) := unnest_params parent_ety ps (0, [parent_ety], []) in
      (etys, log)
  end.

(** Calling the function found in the dispatch table. *)
Definition call (f : parser_func) (term lang : string) (template : Template) (i : Z)
  : result Parsed * list LogRecord :=
  let pure (g : string -> string -> Template -> Z -> result Parsed) :=
    (g term lang template i, []) in
  let nested (rt : RelType) :=
    let (etys, log) := unnest_template term lang template rt i in
    (Return (Many etys), log) in
  match f with
  | f_inherited => pure inherited
  | f_derived => pure derived
  | f_borrowed => pure borrowed
  | f_learned_borrowing => pure learned_borrowing
  | f_orthographic_borrowing => pure orthographic_borrowing
  | f_semi_learned_borrowing => pure semi_learned_borrowing
  | f_unadapted_borrowing => pure unadapted_borrowing
  | f_pie_root => pure pie_root
  | f_root => pure root
  | f_affix => pure affix
  | f_prefix => pure prefix
  | f_confix => pure confix
  | f_suffix => pure suffix
  | f_compound => pure compound
  | f_blend => pure blend
  | f_clipping => pure clipping
  | f_back_form => pure back_form
  | f_doublet => pure doublet
  | f_onomatopoeic => pure onomatopoeic
  | f_calque => pure calque
  | f_semantic_loan => pure semantic_loan
  | f_named_after => pure named_after
  | f_phono_semantic_matching => pure phono_semantic_matching
  | f_mention => pure mention
  | f_cognate => pure cognate
  | f_non_cognate => pure non_cognate
  | f_derived_parsed => pure derived_parsed
  | f_affix_parsed => nested GroupAffix
  | f_from_parsed => nested GroupDerived
  | f_related_parsed => nested GroupMention
  | f_abbreviation => pure abbreviation
  | f_initialism => pure initialism
  | f_default_func => pure default_func
  end.

End Unnest.

(** [parse_template]: dispatch, the [try]/[except Exception] around the
    call, and the wrapping of a single record into a list.  The second
    component collects the warnings logged. *)
Fixpoint parse_template (template_name term lang : string) (template : Template) (i : Z)
         {struct template} : list Etymology * list LogRecord :=
  match get_template_parser (strip template_name) with
  | None => ([], [])
  | Some f =>
      let (outcome, log) :=
        call (fun child => parse_template (name child) term lang child i)
             f term lang template i in
      match outcome with
      | Raise _ => ([], log ++ [mkLog term lang (str_template template)])
      | Return (One e) => ([e], log)
      | Return (Many l) => (l, log)
      end
  end.

(** [affix_parsed], [from_parsed], [related_parsed] as called through the
    dispatch table. *)
Definition affix_parsed (term lang : string) (template : Template) (i : Z) :=
  unnest_template (fun child => parse_template (name child) term lang child i)
                  term lang template GroupAffix i.
Definition from_parsed (term lang : string) (template : Template) (i : Z) :=
  unnest_template (fun child => parse_template (name child) term lang child i)
                  term lang template GroupDerived i.
Definition related_parsed (term lang : string) (template : Template) (i : Z) :=
  unnest_template (fun child => parse_template (name child) term lang child i)
                  term lang template GroupMention i.

End Templates.

Import Templates.

(* ================================================================== *)
(** * main.py *)
(* ================================================================== *)

Module Main.

(** ** Regular expressions of the module *)

Definition is_sep (c : ascii) : bool :=
  Ascii.eqb c ","%char || Ascii.eqb c " "%char.

Definition char_str (c : ascii) : string := String c EmptyString.

(** [re.split(",| |", s)].  The pattern has three alternatives, the last
    one empty.  The split loop searches from the current position for the
    leftmost match, alternatives tried in order, emits the text since the
    previous match, and continues after the match; an empty match is
    refused only at the position where the previous match, itself empty,
    ended ([must_advance]).  At any position [","] or [" "] matches one
    character when present, and the empty alternative matches otherwise.
    [split_from s must_advance] is the list of pieces produced from a
    position with remaining text [s]. *)
Fixpoint split_from (s : string) (must_advance : bool) : list string :=
  match s with
  | EmptyString => if must_advance then [""] else [""; ""]
  | String c r =>
      if is_sep c then "" :: split_from r false
      else
        let after_char :=
          match r with
          | String d r' => if is_sep d then split_from r' false else split_from r true
          | EmptyString => split_from r true
          end in
        if must_advance then char_str c :: after_char
        else "" :: char_str c :: after_char
  end.

Definition re_split_comma_space (s : string) : list string := split_from s false.

(** [re.findall(r'\b\d+\b', s)]: a match is a maximal run of word
    characters made of digits only.  [digit_words s cur] scans [s] with
    [cur] the run of word characters read so far ([None] once the run has a
    non-digit). *)
Fixpoint digit_words (s : string) (cur : option string) : list string :=
  let flush (k : list string) :=
    match cur with
    | Some w => if String.eqb w "" then k else w :: k
    | None => k
    end in
  match s with
  | EmptyString => flush []
  | String c s' =>
      if is_digit c then
        digit_words s' (match cur with
                        | Some w => Some (w ++ char_str c)%string
                        | None => None
                        end)
      else if is_word c then digit_words s' None
      else flush (digit_words s' (Some ""))
  end.

Definition findall_numbers (s : string) : list string := digit_words s (Some "").

(** [int(s)] for a string of decimal digits. *)
Definition int_of_digits (s : string) : Z :=
  (fix go (s : string) (acc : Z) : Z :=
     match s with
     | EmptyString => acc
     | String c s' => go s' (10 * acc + (Z.of_nat (nat_of_ascii c) - 48))
     end) s 0.

Fixpoint any_digit (s : string) : bool :=
  match s with
  | EmptyString => false
  | String c s' => is_digit c || any_digit s'
  end.

(** ** Positions *)

(** [[i for i, node in enumerate(wc.nodes) if keep(i, node)]] *)
Definition indices_where (keep : Z -> Node -> bool) (wc : Wikicode) : list Z :=
  map fst (filter (fun ix : Z * Node => keep (fst ix) (snd ix)) (enumerate wc)).

(** A node of the sequence is identified by its position when a pass
    starts: every node object occurs once in [wc.nodes], so removing or
    replacing "this node" is removing or replacing at its position. *)
Fixpoint replace_at {A : Type} (k : nat) (x : A) (l : list A) : list A :=
  match l, k with
  | [], _ => []
  | _ :: l', O => x :: l'
  | a :: l', S k' => a :: replace_at k' x l'
  end.

(** Removal of the nodes at the given original positions. *)
Definition remove_positions {A : Type} (ks : list Z) (l : list A) : list A :=
  map snd (filter (fun ix : Z * A => negb (mem (fst ix) ks)) (enumerate l)).

(** ** [clean_wikicode]: the noise predicate *)

Definition cleaner (x : Node) : bool :=
  match x with
  | Text v => negb (truthy (strip v))
  | Wikilink _ _ => false
  | TemplateNode _ => false
  | _ => true
  end.

(** [for node in wc.filter(recursive=False, matches=cleaner): wc.remove(node)] *)
Definition strip_noise (wc : Wikicode) : Wikicode :=
  filter (fun x => negb (cleaner x)) wc.

(** ** [merge_etyl_templates] *)

(** The values the pass puts in the new construct: a literal string, a
    parameter, or a piece of wikicode. *)
Inductive Piece : Type :=
| PStr (s : string)
| PParam (p : Param)
| PCode (w : Wikicode).

Definition prepend_text (s : string) (w : Wikicode) : Wikicode :=
  match w with
  | Text t :: w' => Text (s ++ t)%string :: w'
  | _ => Text s :: w
  end.

(** The value of [Parameter(name, str(x), showkey=False)].  The constructor
    parses the rendering [str(x)] again; the parser is a collaborator of
    the sources, and the rendering of a node sequence is taken to parse
    back to that sequence, a bare string to one text node (none when
    empty), and a keyed parameter [k=v] to [v] with the text [k=] in
    front. *)
Definition reparsed (x : Piece) : Wikicode :=
  match x with
  | PStr s => if String.eqb s "" then [] else [Text s]
  | PParam q => if showkey q then prepend_text (pname q ++ "=")%string (value q) else value q
  | PCode w => w
  end.

(** [str(i)] for an integer. *)
Definition str_int (i : Z) : string := DecimalString.NilZero.string_of_int (Z.to_int i).

(** [[Parameter(str(i+1), x, showkey=False) for i, x in enumerate(xs)]] *)
Definition numbered_params {A : Type} (val : A -> Wikicode) (xs : list A) : list Param :=
  map (fun ix : Z * A => mkParam (str_int (fst ix + 1)) (val (snd ix)) false) (enumerate xs).

Definition mention_names : list string :=
  ["m"; "mention"; "m+"; "langname-mention"; "l"; "link"].

Definition name_in (n : string) (names : list string) : bool :=
  existsb (String.eqb n) names.

(** What the inspection of the node after an [etyl] yields:
    [make_new_template], [related_language], [val], and the positions
    appended to [nodes_to_remove]. *)
Definition inspect_next (i : Z) (related_language : Param) (node : Node)
  : result (bool * Param * Piece * list Z) :=
  match node with
  | Text v =>
      val <- index (re_split_comma_space (strip v)) 0 ;;
      Return (truthy val, related_language, PStr val, [])
  | Wikilink title text =>
      let shown :=
        match text with
        | Some w => if truthy (str_wikicode w) then str_wikicode w else title
        | None => title
        end in
      val <- index (re_split_comma_space (strip shown)) 0 ;;
      Return (truthy val, related_language, PStr val, [])
  | TemplateNode node_t =>
      if name_in (name node_t) mention_names then
        related_language' <- index (params node_t) 0 ;;
        if 1 <? len (params node_t) then
          p1 <- index (params node_t) 1 ;;
          Return (true, related_language', PCode (value p1), [i + 1])
        else Return (false, related_language', PStr "", [])
      else Return (false, related_language, PStr "", [])
  | _ => Return (false, related_language, PStr "", [])
  end.

(** The body of [for i in etyl_indices], on the node sequence and
    [nodes_to_remove]. *)
Definition etyl_step (st : Wikicode * list Z) (i : Z) : result (Wikicode * list Z) :=
  let (wc, nodes_to_remove) := st in
  n <- index wc i ;;
  match n with
  | TemplateNode etyl =>
      related_language <- index (params etyl) 0 ;;
      language <- (if len (params etyl) =? 1 then Return (PStr "en")
                   else q <- index (params etyl) 1 ;; Return (PParam q)) ;;
      node <- index wc (i + 1) ;;
      found <- inspect_next i related_language node ;;
      let '(make_new_template, related_language', val, removed) := found in
      if make_new_template then
        let new_template :=
          mkTemplate "derived-parsed"
            (numbered_params reparsed [language; PParam related_language'; val]) in
        Return (replace_at (Z.to_nat i) (TemplateNode new_template) wc,
                nodes_to_remove ++ removed)
      else Return (wc, nodes_to_remove ++ removed ++ [i])
  | _ => Raise AttributeError
  end.

Fixpoint for_state {S A : Type} (body : S -> A -> result S) (l : list A) (st : S) : result S :=
  match l with
  | [] => Return st
  | a :: l' => st' <- body st a ;; for_state body l' st'
  end.

Definition is_etyl_at (n : Z) (i : Z) (node : Node) : bool :=
  match node with
  | TemplateNode t => String.eqb (name t) "etyl" && (i <? n - 1)
  | _ => false
  end.

Definition merge_etyl_templates (wc : Wikicode) : result Wikicode :=
  let etyl_indices := indices_where (is_etyl_at (len wc)) wc in
  st <- for_state etyl_step etyl_indices (wc, []) ;;
  let (wc', nodes_to_remove) := st in
  Return (remove_positions nodes_to_remove wc').

(** ** [combine_template_chains] *)

(** The loop state: [index_combos], [index_combo], [combine]. *)
Definition chain_state : Type := list (list Z) * list Z * bool.

(** The body of [for i in template_indices]. *)
Definition chain_step (text_indices : list Z) (st : chain_state) (i : Z) : chain_state :=
  let '(index_combos, index_combo, combine) := st in
  let index_combo :=
    if mem (i + 1) text_indices || (mem (i - 2) index_combo && combine)
    then index_combo ++ [i] else index_combo in
  let combine := mem (i + 1) text_indices in
  if negb combine then
    ((if 1 <? len index_combo then index_combos ++ [index_combo] else index_combos),
     [], combine)
  else (index_combos, index_combo, combine).

(** [index_combos] after the loop and the final test on [index_combo]. *)
Definition index_chains (template_indices text_indices : list Z) : list (list Z) :=
  let '(index_combos, index_combo, _) :=
    fold_left (chain_step text_indices) template_indices ([], [], false) in
  if 1 <? len index_combo then index_combos ++ [index_combo] else index_combos.

(** While the combos are spliced in, a node of the original sequence is
    known by its original position; the constructs inserted meanwhile have
    no such identity. *)
Definition tagged : Type := option Z * Node.

Definition has_tag (k : Z) (x : tagged) : bool :=
  match fst x with
  | Some j => j =? k
  | None => false
  end.

(** [wc.insert_before(node, new, recursive=False)] *)
Fixpoint insert_before (k : Z) (new : Node) (l : list tagged) : result (list tagged) :=
  match l with
  | [] => Raise ValueError
  | x :: l' =>
      if has_tag k x then Return ((None, new) :: l)
      else l'' <- insert_before k new l' ;; Return (x :: l'')
  end.

(** [wc.remove(node, recursive=False)] *)
Fixpoint remove (k : Z) (l : list tagged) : result (list tagged) :=
  match l with
  | [] => Raise ValueError
  | x :: l' =>
      if has_tag k x then Return l'
      else l'' <- remove k l' ;; Return (x :: l'')
  end.

(** The body of [for combo in combo_nodes]; a combo carries the positions
    and the nodes of its members. *)
Definition splice_combo (new_template_name : string) (l : list tagged) (combo : list (Z * Node))
  : result (list tagged) :=
  let params := numbered_params (fun t : Z * Node => [snd t]) combo in
  let new_template := TemplateNode (mkTemplate new_template_name params) in
  first <- index combo 0 ;;
  l' <- insert_before (fst first) new_template l ;;
  for_state (fun acc (node : Z * Node) => remove (fst node) acc) combo l'.

Definition combine_template_chains (wc : Wikicode) (new_template_name : string)
           (template_indices text_indices : list Z) : result Wikicode :=
  let index_combos := index_chains template_indices text_indices in
  combo_nodes <- for_each (fun chain =>
                   for_each (fun i => n <- index wc i ;; Return (i, n)) chain)
                 index_combos ;;
  l <- for_state (splice_combo new_template_name) combo_nodes
         (map (fun ix : Z * Node => (Some (fst ix), snd ix)) (enumerate wc)) ;;
  Return (map snd l).

(** ** The three connector families *)

Definition is_text_where (pred : string -> bool) (i : Z) (node : Node) : bool :=
  match node with
  | Text v => pred v
  | _ => false
  end.

Definition template_positions (wc : Wikicode) : list Z :=
  indices_where (fun _ node => is_template node) wc.

Definition is_plus_str (x : string) : bool := String.eqb (strip x) "+".
Definition is_comma_str (x : string) : bool := String.eqb (strip x) ",".
Definition is_inheritance_str (x : string) : bool :=
  String.eqb (strip x) "<" || String.eqb (sub_non_lower (lower x)) "from".

Definition get_comma_combos (wc : Wikicode) : result Wikicode :=
  combine_template_chains wc "related-parsed" (template_positions wc)
    (indices_where (is_text_where is_comma_str) wc).

Definition get_plus_combos (wc : Wikicode) : result Wikicode :=
  combine_template_chains wc "affix-parsed" (template_positions wc)
    (indices_where (is_text_where is_plus_str) wc).

Definition get_from_chains (wc : Wikicode) : result Wikicode :=
  combine_template_chains wc "from-parsed" (template_positions wc)
    (indices_where (is_text_where is_inheritance_str) wc).

(** ** [remove_links] *)

(** [for link in wc.filter_wikilinks(): wc.replace(link, link.text)].  The
    search for links and the replacement both descend into construct
    arguments and link texts, and the links are replaced outermost first, so
    that every link, at any depth, ends up replaced by the nodes of its
    text (by nothing when it has none).  Headings and [Other] nodes are
    opaque here and keep their rendering. *)
Fixpoint unlink (n : Node) : list Node :=
  match n with
  | Wikilink _ None => []
  | Wikilink _ (Some w) => flat_map unlink w
  | TemplateNode (mkTemplate nm ps) =>
      [TemplateNode
         (mkTemplate nm
            (map (fun q => match q with
                           | mkParam k v sk => mkParam k (flat_map unlink v) sk
                           end) ps))]
  | _ => [n]
  end.

Definition remove_links (wc : Wikicode) : Wikicode := flat_map unlink wc.

(** ** [clean_wikicode] *)

Definition clean_wikicode (wc : Wikicode) : result Wikicode :=
  let wc := strip_noise wc in
  wc <- merge_etyl_templates wc ;;
  wc <- get_plus_combos wc ;;
  wc <- get_comma_combos wc ;;
  wc <- get_from_chains wc ;;
  Return (remove_links wc).

(** ** [parse_wikitext] *)

(** What the markup parser hands to the driver for one level-2 section:
    the title of its heading and the sections
    [get_sections(matches="Etymology", flat=True, include_headings=True)]. *)
Record LanguageSection : Type := mkSection {
  section_title : string;
  etymologies : list Wikicode
}.

(** [etym_idx] of one etymology section. *)
Definition etym_index (e : Wikicode) : result Z :=
  first <- index e 0 ;;
  match first with
  | Heading title _ =>
      if any_digit title then
        let nums := findall_numbers title in
        if 0 <? len nums then n <- index nums 0 ;; Return (int_of_digits n - 1)
        else Return 0
      else Return 0
  | _ => Return 0
  end.

(** The loop over the top-level constructs of one cleaned section. *)
Fixpoint parse_templates (term lang : string) (etym_idx : Z) (ts : list Template)
  : list Etymology * list LogRecord :=
  match ts with
  | [] => ([], [])
  | template :: ts' =>
      let (parsed, log) := parse_template (name template) term lang template etym_idx in
      let (rest, log') := parse_templates term lang etym_idx ts' in
      (filter is_valid parsed ++ rest, log ++ log')
  end.

(** One etymology section: index, cleaning, interpretation. *)
Definition parse_etymology (term lang : string) (e : Wikicode)
  : result (list Etymology * list LogRecord) :=
  etym_idx <- etym_index e ;;
  cleaned <- clean_wikicode e ;;
  Return (parse_templates term lang etym_idx (filter_templates cleaned)).

Definition parse_language_section (term : string)
           (acc : list Etymology * list LogRecord) (language_section : LanguageSection)
  : result (list Etymology * list LogRecord) :=
  for_state (fun acc e =>
               r <- parse_etymology term (section_title language_section) e ;;
               Return (fst acc ++ fst r, snd acc ++ snd r))
            (etymologies language_section) acc.

(** [parse_wikitext], on the title and the level-2 sections of the parsed
    page; the second component collects the warnings logged. *)
Definition parse_wikitext (term : string) (wikitext : list LanguageSection)
  : result (list Etymology * list LogRecord) :=
  r <- for_state (parse_language_section term) wikitext ([], []) ;;
  Return (filter is_valid (fst r), snd r).

End Main.

Import Main.

(* ================================================================== *)
(** * Constructs and predicates used in the statements *)
(* ================================================================== *)

Module Sample.

(** A construct as the parser builds it from [{{name|a1|...|an}}] with
    plain-text arguments: positional parameters named ["1"], ["2"], ... *)
Definition construct (nm : string) (args : list string) : Template :=
  mkTemplate nm (numbered_params (fun a : string => [Text a]) args).

(** A connector-merged construct as [combine_template_chains] builds it. *)
Definition group (nm : string) (members : list Template) : Template :=
  mkTemplate nm (numbered_params (fun t : Template => [TemplateNode t]) members).

(** A record without group linkage. *)
Definition untagged (e : Etymology) : Prop :=
  group_tag e = None /\ parent_tag e = None.

(** The records an interpreter hands back, if any, are [untagged]. *)
Definition all_untagged (r : result Parsed) : Prop :=
  match r with
  | Return (One e) => untagged e
  | Return (Many l) => Forall untagged l
  | Raise _ => True
  end.

(** The interpreter found for a construct raises when called on it. *)
Definition interpreter_raises (term lang : string) (template : Template) (i : Z) : Prop :=
  exists f e log,
    get_template_parser (strip (name template)) = Some f /\
    call (fun child => parse_template (name child) term lang child i)
         f term lang template i = (Raise e, log).

(** A record's object term is neither empty nor the placeholder. *)
Definition proper_term (e : Etymology) : Prop :=
  related_term e <> Some "" /\ related_term e <> Some "-".

(** A page with one language section and one numbered etymology section:
    a two-member "+" chain, a mention of the placeholder, and a [prefix]
    construct with a single argument. *)
Definition sample_page : list LanguageSection :=
  [ mkSection "English"
      [ [ Heading "Etymology 2" 3; Text "From ";
          TemplateNode (construct "m" ["en"; "a"]); Text " + ";
          TemplateNode (construct "m" ["en"; "b"]); Text ". ";
          TemplateNode (construct "m" ["en"; "-"]);
          TemplateNode (construct "prefix" ["en"]) ] ] ].

(** The conditions under which a normalized sequence is left alone by a
    further pass: at top level, no noise node, no [etyl] construct that has
    a successor, and no connector token. *)
Definition no_noise (wc : Wikicode) : bool :=
  forallb (fun x => negb (cleaner x)) wc.

Definition is_etyl (n : Node) : bool :=
  match n with
  | TemplateNode t => String.eqb (name t) "etyl"
  | _ => false
  end.




(** Two "+" chains side by side. *)
Definition two_plus_chains : Wikicode :=
  [ TemplateNode (construct "m" ["en"; "a"]); Text " + ";
    TemplateNode (construct "m" ["en"; "b"]);
    TemplateNode (construct "m" ["en"; "c"]); Text " + ";
    TemplateNode (construct "m" ["en"; "d"]) ].

(** An [etyl] construct completed by a mention, some text and a link. *)
Definition etyl_section : Wikicode :=
  [ Heading "Etymology" 3;
    TemplateNode (construct "etyl" ["la"; "en"]);
    TemplateNode (construct "m" ["la"; "foo"]);
    Text " word "; Wikilink "x" (Some [Text "y"]) ].

End Sample.

Import Sample.

(* ================================================================== *)
(** * Further predicates used in the statements *)
(* ================================================================== *)

Module More.

(** The interpreters of the (lang, part 1, ..., part n) family with their
    kinds, and those of the two fixed-arity families. *)
Definition part_list_family : list ((string -> string -> Template -> Z -> result Parsed) * RelType) :=
  [(affix, Affix); (compound, Compound); (blend, Blend); (doublet, Doublet)].

Definition source_pair_family : list ((string -> string -> Template -> Z -> result Parsed) * RelType) :=
  [(derived, Derived); (borrowed, Borrowed); (learned_borrowing, LearnedBorrowing);
   (semi_learned_borrowing, SemiLearnedBorrowing);
   (unadapted_borrowing, UnadaptedBorrowing);
   (orthographic_borrowing, OrthographicBorrowing); (inherited, Inherited);
   (calque, Calque); (semantic_loan, SemanticLoan);
   (phono_semantic_matching, PhonoSemanticMatching)].

Definition lang_word_family : list ((string -> string -> Template -> Z -> result Parsed) * RelType) :=
  [(clipping, Clipping); (abbreviation, Abbreviation); (initialism, Initialism);
   (back_form, BackForm); (named_after, NamedAfter); (mention, Mention);
   (cognate, Cognate); (non_cognate, Mention)].

(** Every interpreter of the dispatch table that does not unnest. *)
Definition flat_interpreters : list (string -> string -> Template -> Z -> result Parsed) :=
  [inherited; derived; borrowed; learned_borrowing; orthographic_borrowing;
   semi_learned_borrowing; unadapted_borrowing; pie_root; root; affix;
   prefix; confix; suffix; compound; blend; clipping; back_form; doublet;
   onomatopoeic; calque; semantic_loan; named_after;
   phono_semantic_matching; mention; cognate; non_cognate; derived_parsed;
   abbreviation; initialism; default_func].

(** One record per morpheme, at its index. *)
Definition morpheme_records (term lang : string) (rt : RelType) (related_lang : string)
           (i : Z) (morphemes : list Param) : list Etymology :=
  map (fun jm : Z * Param =>
         new term lang (rel_value rt) (Some related_lang)
             (Some (str_parameter (snd jm))) i (fst jm))
      (enumerate morphemes).

(** A record is about the given subject and definition, and its position
    is not negative. *)
Definition about (term lang : string) (i : Z) (e : Etymology) : Prop :=
  Elements.term e = term /\ Elements.lang e = lang /\ definition_num e = i /\
  0 <= position e.

Definition all_about (term lang : string) (i : Z) (r : result Parsed) : Prop :=
  match r with
  | Return (One e) => about term lang i e
  | Return (Many l) => Forall (about term lang i) l
  | Raise _ => True
  end.

(** The names of the group constructs with the kind of their anchor. *)
Definition group_names : list (string * RelType) :=
  [("affix-parsed", GroupAffix); ("from-parsed", GroupDerived);
   ("related-parsed", GroupMention)].

(** The records of the members of a group, each re-parented to the anchor
    with the index of its member. *)
Definition member_records (term lang : string) (i : Z) (anchor : Etymology)
           (first : Z) (members : list Template) : list Etymology :=
  flat_map (fun km : Z * Template =>
              map (fun e => with_parent e anchor (fst km))
                  (fst (parse_template (name (snd km)) term lang (snd km) i)))
           (enumerate_from first members).

(** No hyperlink in a node, at any depth of construct arguments. *)
Fixpoint link_free (n : Node) : bool :=
  match n with
  | Wikilink _ _ => false
  | TemplateNode (mkTemplate _ ps) =>
      forallb (fun q => match q with
                        | mkParam _ v _ => forallb link_free v
                        end) ps
  | _ => true
  end.

(** The nodes of a sequence that are not constructs, in order. *)
Definition other_nodes (wc : Wikicode) : Wikicode :=
  filter (fun n => negb (is_template n)) wc.

(** Every member of a chain but the last is followed by a connector. *)
Fixpoint linked (text_indices : list Z) (chain : list Z) : bool :=
  match chain with
  | [] => true
  | i :: chain' =>
      match chain' with
      | [] => true
      | _ :: _ => mem (i + 1) text_indices && linked text_indices chain'
      end
  end.


(** An [etyl] construct or a mention-like construct has at least one
    argument. *)
Definition has_argument (n : Node) : bool :=
  match n with
  | TemplateNode t =>
      if String.eqb (name t) "etyl" || name_in (name t) mention_names
      then match params t with [] => false | _ :: _ => true end
      else true
  | _ => true
  end.

End More.

Import More.

(* ================================================================== *)
(** * Properties *)
(* ================================================================== *)

(* ------------------------------------------------------------------ *)
(** ** Lists, indices and slices *)

Lemma index_0 : forall (A : Type) (a : A) l, index (a :: l) 0 = Return a.
Proof. reflexivity. Qed.

Lemma index_1 : forall (A : Type) (a b : A) l, index (a :: b :: l) 1 = Return b.
Proof. reflexivity. Qed.

Lemma len_app : forall (A : Type) (l l' : list A), len (l ++ l') = len l + len l'.
Proof. intros. unfold len. rewrite length_app. lia. Qed.

Lemma len_nonneg : forall (A : Type) (l : list A), 0 <= len l.
Proof. intros. unfold len. lia. Qed.

Lemma index_last :
  forall (A : Type) (l : list A) (a : A), index (l ++ [a]) (-1) = Return a.
Proof.
  intros A l a. unfold index. cbn [Z.ltb Z.compare].
  rewrite len_app. change (len [a]) with 1.
  replace (-1 + (len l + 1)) with (len l) by lia.
  destruct (len l <? 0) eqn:E.
  - apply Z.ltb_lt in E. pose proof (len_nonneg A l). lia.
  - unfold len. rewrite Nat2Z.id, nth_error_app2, Nat.sub_diag by lia. reflexivity.
Qed.

Lemma slice_tail :
  forall (A : Type) (pre l : list A),
    slice (pre ++ l) (len pre) None = l.
Proof.
  intros A pre l. unfold slice, clamp, len. rewrite length_app.
  destruct (Z.of_nat (length pre) <? 0) eqn:E1; [apply Z.ltb_lt in E1; lia|].
  rewrite E1.
  destruct (Z.of_nat (length pre + length l) <? Z.of_nat (length pre)) eqn:E2;
    [apply Z.ltb_lt in E2; lia|].
  rewrite Nat2Z.id, skipn_app, skipn_all, Nat.sub_diag.
  cbn [skipn app].
  replace (Z.to_nat (Z.of_nat (length pre + length l) - Z.of_nat (length pre)))
    with (length l) by lia.
  apply firstn_all.
Qed.

Lemma slice_inner :
  forall (A : Type) (pre mid : list A) (a : A),
    slice (pre ++ mid ++ [a]) (len pre) (Some (-1)) = mid.
Proof.
  intros A pre mid a. unfold slice, clamp, len. rewrite !length_app.
  cbn [length Z.ltb Z.compare].
  destruct (Z.of_nat (length pre) <? 0) eqn:E1; [apply Z.ltb_lt in E1; lia|].
  rewrite E1.
  destruct (Z.of_nat (length pre + (length mid + 1)) <? Z.of_nat (length pre)) eqn:E2;
    [apply Z.ltb_lt in E2; lia|].
  destruct (-1 + Z.of_nat (length pre + (length mid + 1)) <? 0) eqn:E3;
    [apply Z.ltb_lt in E3; lia|].
  destruct (Z.of_nat (length pre + (length mid + 1))
            <? -1 + Z.of_nat (length pre + (length mid + 1))) eqn:E4;
    [apply Z.ltb_lt in E4; lia|].
  rewrite Nat2Z.id, skipn_app, skipn_all, Nat.sub_diag.
  cbn [skipn app].
  replace (Z.to_nat (-1 + Z.of_nat (length pre + (length mid + 1)) - Z.of_nat (length pre)))
    with (length mid) by lia.
  rewrite firstn_app, firstn_all, Nat.sub_diag. cbn [firstn]. apply app_nil_r.
Qed.

Lemma for_each_ext :
  forall (A B : Type) (f g : A -> result B) l,
    (forall a, f a = g a) -> for_each f l = for_each g l.
Proof.
  intros A B f g l H. induction l as [|a l IH]; cbn; [reflexivity|].
  now rewrite H, IH.
Qed.

Lemma for_each_return :
  forall (A B : Type) (f : A -> B) l,
    for_each (fun a => Return (f a)) l = Return (map f l).
Proof.
  intros A B f l. induction l as [|a l IH]; cbn; [reflexivity|].
  now rewrite IH.
Qed.

Lemma enumerate_from_snd :
  forall (A : Type) (l : list A) k, map snd (enumerate_from k l) = l.
Proof.
  intros A l. induction l as [|a l IH]; intros k; cbn; [reflexivity|].
  now rewrite IH.
Qed.



(* ------------------------------------------------------------------ *)
(** ** Records *)

(** C10. [with_parent child parent n] has [parent_tag] equal to the parent's
    [group_tag], [parent_position] equal to [n], and agrees with [child] on
    [lang], [term], [reltype], [related_lang], [related_term],
    [definition_num], [position] and [group_tag]. *)
Theorem with_parent_frame :
  forall (child parent : Etymology) (n : Z),
    let r := with_parent child parent n in
    parent_tag r = group_tag parent /\
    parent_position r = Some n /\
    lang r = lang child /\
    term r = term child /\
    reltype r = reltype child /\
    related_lang r = related_lang child /\
    related_term r = related_term child /\
    definition_num r = definition_num child /\
    position r = position child /\
    group_tag r = group_tag child.
Proof.
  intros child parent n r. subst r.
  unfold with_parent; cbn. repeat split.
Qed.

(* ------------------------------------------------------------------ *)
(** ** Morpheme lists *)

(** C4, amended.  [root] does not read argument 0; argument 1 is the object
    language and arguments 2..N are the morphemes, each giving one record
    of kind Root at its 0-based index among the morphemes, with the same
    [definition_num]. *)
Theorem root_records :
  forall term lang template i l x morphemes,
    positional template = l :: x :: morphemes ->
    root term lang template i
    = Return (Many (map (fun jm : Z * Param =>
                           new term lang "has_root" (Some (str_parameter x))
                               (Some (str_parameter (snd jm))) i (fst jm))
                        (enumerate morphemes))).
Proof.
  intros term lang template i l x morphemes H.
  unfold root. rewrite H.
  change (slice (l :: x :: morphemes) 2 None)
    with (slice ([l; x] ++ morphemes) (len [l; x]) None).
  rewrite slice_tail.
  erewrite for_each_ext.
  - rewrite for_each_return. reflexivity.
  - intros [j r]. reflexivity.
Qed.

Lemma root_records_witness :
  positional (construct "root" ["en"; "X"; "root1"; "root2"])
  = [mkParam "1" [Text "en"] false; mkParam "2" [Text "X"] false;
     mkParam "3" [Text "root1"] false; mkParam "4" [Text "root2"] false] /\
  root "word" "English" (construct "root" ["en"; "X"; "root1"; "root2"]) 3
  = Return (Many [new "word" "English" "has_root" (Some "X") (Some "root1") 3 0;
                  new "word" "English" "has_root" (Some "X") (Some "root2") 3 1]).
Proof.
  split; [reflexivity|].
  apply (root_records "word" "English"
           (construct "root" ["en"; "X"; "root1"; "root2"]) 3
           (mkParam "1" [Text "en"] false) (mkParam "2" [Text "X"] false)
           [mkParam "3" [Text "root1"] false; mkParam "4" [Text "root2"] false]).
  reflexivity.
Defined.

(** C4 as stated fails: [root(X, root1, root2)] does not give two records
    with object language [X]. *)
Lemma root_three_arguments :
  ~ (exists e0 e1,
       root "word" "English" (construct "root" ["X"; "root1"; "root2"]) 3
       = Return (Many [e0; e1]) /\
       related_lang e0 = Some "X" /\ related_lang e1 = Some "X" /\
       position e0 = 0 /\ position e1 = 1).
Proof.
  intros (e0 & e1 & H & _). discriminate H.
Qed.

(* ------------------------------------------------------------------ *)
(** ** Confix *)

(** C9, amended.  For [confix(lang, a1, ..., an)] with [n >= 2] the first
    affix argument gives the record at position 0, the interior arguments
    the records at positions 1, 2, ... in order, and the last argument the
    record at position [n - 1]; every one of them has kind Confix and
    object language [lang]. *)
Theorem confix_records :
  forall term lang template i l a1 interior an,
    positional template = l :: a1 :: interior ++ [an] ->
    confix term lang template i
    = Return (Many
        (new term lang (rel_value Confix) (Some (str_parameter l))
             (Some (str_parameter a1)) i 0
         :: map (fun jm : Z * Param =>
                   new term lang (rel_value Confix) (Some (str_parameter l))
                       (Some (str_parameter (snd jm))) i (fst jm + 1))
                (enumerate interior)
         ++ [new term lang (rel_value Confix) (Some (str_parameter l))
                 (Some (str_parameter an)) i (len interior + 1)])).
Proof.
  intros term lang template i l a1 interior an H.
  unfold confix. rewrite H.
  unfold str_at at 1 2. rewrite index_0, index_1. cbn [bind].
  change (slice (l :: a1 :: interior ++ [an]) 2 (Some (-1)))
    with (slice ([l; a1] ++ interior ++ [an]) (len [l; a1]) (Some (-1))).
  rewrite slice_inner.
  rewrite (for_each_ext _ _ _
             (fun jr : Z * Param =>
                Return (new term lang (rel_value Confix) (Some (str_parameter l))
                            (Some (str_parameter (snd jr))) i (fst jr + 1)))).
  2: { intros [j r]. unfold str_at. rewrite index_0. reflexivity. }
  rewrite for_each_return.
  cbn [bind].
  unfold str_at. rewrite index_0. cbn [bind].
  change (l :: a1 :: interior ++ [an]) with ((l :: a1 :: interior) ++ [an]).
  rewrite index_last. cbn [bind].
  replace (len ((l :: a1 :: interior) ++ [an]) - 2) with (len interior + 1).
  - reflexivity.
  - unfold len. rewrite length_app. cbn [length]. lia.
Qed.

Lemma confix_records_witness :
  positional (construct "confix" ["en"; "a"; "b"; "c"; "d"])
  = mkParam "1" [Text "en"] false :: mkParam "2" [Text "a"] false
    :: [mkParam "3" [Text "b"] false; mkParam "4" [Text "c"] false]
    ++ [mkParam "5" [Text "d"] false] /\
  confix "word" "English" (construct "confix" ["en"; "a"; "b"; "c"; "d"]) 0
  = Return (Many [new "word" "English" "has_confix" (Some "en") (Some "a") 0 0;
                  new "word" "English" "has_confix" (Some "en") (Some "b") 0 1;
                  new "word" "English" "has_confix" (Some "en") (Some "c") 0 2;
                  new "word" "English" "has_confix" (Some "en") (Some "d") 0 3]).
Proof.
  split; [reflexivity|].
  apply (confix_records "word" "English"
           (construct "confix" ["en"; "a"; "b"; "c"; "d"]) 0
           (mkParam "1" [Text "en"] false) (mkParam "2" [Text "a"] false)
           [mkParam "3" [Text "b"] false; mkParam "4" [Text "c"] false]
           (mkParam "5" [Text "d"] false)).
  reflexivity.
Defined.

(** C9 as stated fails: in [confix(en, a, b, c)] the record of the interior
    argument [b] has the same kind as the records of [a] and [c]. *)
Lemma confix_interior_kind :
  ~ (exists first middle last,
       confix "word" "English" (construct "confix" ["en"; "a"; "b"; "c"]) 0
       = Return (Many [first; middle; last]) /\
       related_term middle = Some "b" /\
       reltype middle <> reltype first /\ reltype middle <> reltype last).
Proof.
  intros (first & middle & last & H & _ & N & _).
  injection H as <- <- <-. apply N. reflexivity.
Qed.

(* ------------------------------------------------------------------ *)
(** ** Dispatch and the exception boundary *)

Lemma parse_template_unfold :
  forall template_name term lang template i,
    parse_template template_name term lang template i
    = match get_template_parser (strip template_name) with
      | None => ([], [])
      | Some f =>
          let (outcome, log) :=
            call (fun child => parse_template (name child) term lang child i)
                 f term lang template i in
          match outcome with
          | Raise _ => ([], log ++ [mkLog term lang (str_template template)])
          | Return (One e) => ([e], log)
          | Return (Many l) => (l, log)
          end
      end.
Proof.
  intros template_name term lang [nm ps] i. reflexivity.
Qed.

(* ------------------------------------------------------------------ *)
(** ** Too few positional arguments *)

Lemma source_pair_short :
  forall rt term lang template i,
    len (positional template) < 3 ->
    source_pair rt term lang template i = Return (Many []).
Proof.
  intros rt term lang template i H. unfold source_pair.
  apply Z.ltb_lt in H. now rewrite H.
Qed.

Lemma lang_word_short :
  forall rt term lang template i,
    len (positional template) < 2 ->
    lang_word rt term lang template i = Return (Many []).
Proof.
  intros rt term lang template i H. unfold lang_word.
  apply Z.ltb_lt in H. now rewrite H.
Qed.

Lemma prefix_short :
  forall term lang template i,
    len (positional template) < 2 ->
    prefix term lang template i = Raise IndexError.
Proof.
  intros term lang template i H. unfold prefix.
  destruct (positional template) as [|x [|y r]].
  - reflexivity.
  - reflexivity.
  - unfold len in H. cbn [length] in H. lia.
Qed.

Lemma derived_parsed_short :
  forall term lang template i,
    len (positional template) < 3 ->
    derived_parsed term lang template i = Raise IndexError.
Proof.
  intros term lang template i H. unfold derived_parsed.
  destruct (positional template) as [|x [|y [|z r]]].
  - reflexivity.
  - reflexivity.
  - reflexivity.
  - unfold len in H. cbn [length] in H. lia.
Qed.

Lemma repr_body_len_nonneg : forall q s, 0 <= repr_body_len q s.
Proof.
  intros q s. induction s as [|c s IH]; cbn [repr_body_len]; [lia|].
  unfold repr_char_len.
  repeat match goal with |- context [if ?b then _ else _] => destruct b end; lia.
Qed.

Lemma repr_len_lower : forall s, 2 <= repr_len s.
Proof.
  intros s. unfold repr_len.
  match goal with |- context [repr_body_len ?q s] =>
    pose proof (repr_body_len_nonneg q s) end.
  lia.
Qed.

Lemma str_list_len_cons : forall x r, 4 <= str_list_len (x :: r).
Proof.
  intros x r. unfold str_list_len.
  pose proof (repr_len_lower x).
  assert (0 <= fold_right (fun y acc => 2 + repr_len y + acc) 0 r).
  { induction r as [|y r IH]; cbn [fold_right]; [lia|].
    pose proof (repr_len_lower y). lia. }
  lia.
Qed.

(** The guard of [suffix] lets through every non-empty argument list: the
    rendering of a list is shorter than 3 characters only when the list is
    empty. *)
Lemma suffix_short :
  forall term lang template i,
    (positional template = [] ->
     suffix term lang template i = Return (Many [])) /\
    (0 < len (positional template) < 3 ->
     suffix term lang template i = Raise IndexError).
Proof.
  intros term lang template i. unfold suffix. split.
  - intros ->. reflexivity.
  - intros H. destruct (positional template) as [|x r].
    + unfold len in H. cbn [length] in H. lia.
    + assert (G : (str_list_len (map str_parameter (x :: r)) <? 3) = false).
      { apply Z.ltb_ge. cbn [map].
        pose proof (str_list_len_cons (str_parameter x) (map str_parameter r)). lia. }
      rewrite G. destruct r as [|y [|z r]].
      * reflexivity.
      * reflexivity.
      * unfold len in H. cbn [length] in H. lia.
Qed.

(** C8, amended.  The interpreters with an explicit guard on the number of
    positional arguments return the empty sequence themselves when the
    construct has fewer: three for the (lang, source lang, source word)
    family, two for the (lang, source word) family.  [prefix] and
    [derived_parsed] have no guard: with fewer than two, respectively
    three, positional arguments they raise [IndexError], and the empty
    sequence comes from the handler of [parse_template]. *)
Theorem arity_guards :
  forall term lang template i,
    (len (positional template) < 3 ->
     Forall (fun f => f term lang template i = Return (Many []))
       [derived; borrowed; learned_borrowing; semi_learned_borrowing;
        unadapted_borrowing; orthographic_borrowing; inherited; calque;
        semantic_loan; phono_semantic_matching]) /\
    (len (positional template) < 2 ->
     Forall (fun f => f term lang template i = Return (Many []))
       [clipping; abbreviation; initialism; back_form; named_after; mention;
        cognate; non_cognate]) /\
    (len (positional template) < 2 ->
     prefix term lang template i = Raise IndexError /\
     fst (parse_template "prefix" term lang template i) = []) /\
    (len (positional template) < 3 ->
     derived_parsed term lang template i = Raise IndexError /\
     fst (parse_template "derived-parsed" term lang template i) = []).
Proof.
  intros term lang template i. repeat split.
  - intros H. repeat constructor; apply source_pair_short; exact H.
  - intros H. repeat constructor; apply lang_word_short; exact H.
  - now apply prefix_short.
  - rewrite parse_template_unfold.
    change (get_template_parser (strip "prefix")) with (Some f_prefix).
    cbn [call]. rewrite prefix_short by assumption. reflexivity.
  - now apply derived_parsed_short.
  - rewrite parse_template_unfold.
    change (get_template_parser (strip "derived-parsed")) with (Some f_derived_parsed).
    cbn [call]. rewrite derived_parsed_short by assumption. reflexivity.
Qed.

Lemma arity_guards_witness :
  len (positional (construct "derived" ["en"])) < 2 /\
  derived "word" "English" (construct "derived" ["en"]) 0 = Return (Many []) /\
  mention "word" "English" (construct "derived" ["en"]) 0 = Return (Many []) /\
  prefix "word" "English" (construct "derived" ["en"]) 0 = Raise IndexError /\
  derived_parsed "word" "English" (construct "derived" ["en"]) 0 = Raise IndexError.
Proof.
  assert (H2 : len (positional (construct "derived" ["en"])) < 2) by reflexivity.
  assert (H3 : len (positional (construct "derived" ["en"])) < 3) by reflexivity.
  destruct (arity_guards "word" "English" (construct "derived" ["en"]) 0)
    as (G3 & G2 & GP & GD).
  split; [exact H2|].
  split; [exact (Forall_inv (G3 H3))|].
  split; [exact (Forall_inv (Forall_inv_tail (Forall_inv_tail (Forall_inv_tail
                   (Forall_inv_tail (Forall_inv_tail (G2 H2)))))))|].
  split; [exact (proj1 (GP H2))|exact (proj1 (GD H3))].
Defined.

(** C8 as stated fails: [prefix] with a single positional argument raises
    instead of returning the empty sequence (and so does [derived_parsed]
    with two). *)
Lemma prefix_one_argument_raises :
  prefix "word" "English" (construct "prefix" ["en"]) 0 <> Return (Many []) /\
  derived_parsed "word" "English" (construct "derived-parsed" ["en"; "la"]) 0
    <> Return (Many []).
Proof.
  split; discriminate.
Qed.

(* ------------------------------------------------------------------ *)
(** ** Exceptions of interpreters stop at [parse_template] *)

Lemma parse_templates_app :
  forall term lang i before after,
    fst (parse_templates term lang i (before ++ after))
    = fst (parse_templates term lang i before)
      ++ fst (parse_templates term lang i after).
Proof.
  intros term lang i before after.
  induction before as [|t before IH]; cbn [app parse_templates].
  - reflexivity.
  - destruct (parse_template (name t) term lang t i) as [parsed log].
    destruct (parse_templates term lang i (before ++ after)) as [rest log'].
    destruct (parse_templates term lang i before) as [rest1 log1].
    cbn [fst] in *. rewrite IH. apply app_assoc.
Qed.

(** C7. [parse_template] always returns a list (its result has no
    exception branch).  When the interpreter of a construct raises, that
    list is empty and a warning with the term, the language and the text of
    the construct is logged; in the loop over the constructs of a section
    the records of the constructs before and after it are those they give
    without it. *)
Theorem interpreter_exception_contained :
  forall term lang i template before after,
    interpreter_raises term lang template i ->
    fst (parse_template (name template) term lang template i) = [] /\
    In (mkLog term lang (str_template template))
       (snd (parse_template (name template) term lang template i)) /\
    fst (parse_templates term lang i (before ++ template :: after))
    = fst (parse_templates term lang i before)
      ++ fst (parse_templates term lang i after).
Proof.
  intros term lang i template before after (f & e & log & Hf & Hcall).
  assert (E : parse_template (name template) term lang template i
              = ([], log ++ [mkLog term lang (str_template template)])).
  { rewrite parse_template_unfold, Hf, Hcall. reflexivity. }
  split; [|split].
  - now rewrite E.
  - rewrite E. cbn [snd]. apply in_or_app. right. now left.
  - rewrite parse_templates_app. f_equal.
    cbn [parse_templates]. rewrite E.
    destruct (parse_templates term lang i after) as [rest log']. reflexivity.
Qed.

Lemma interpreter_exception_contained_witness :
  interpreter_raises "w" "English" (construct "prefix" ["en"]) 1 /\
  fst (parse_templates "w" "English" 1
         [construct "m" ["en"; "a"]; construct "prefix" ["en"];
          construct "m" ["en"; "b"]])
  = [new "w" "English" "etymologically_related_to" (Some "en") (Some "a") 1 0;
     new "w" "English" "etymologically_related_to" (Some "en") (Some "b") 1 0].
Proof.
  assert (H : interpreter_raises "w" "English" (construct "prefix" ["en"]) 1).
  { exists f_prefix, IndexError, []. split; reflexivity. }
  split; [exact H|].
  exact (proj2 (proj2 (interpreter_exception_contained "w" "English" 1
                         (construct "prefix" ["en"])
                         [construct "m" ["en"; "a"]] [construct "m" ["en"; "b"]] H))).
Defined.

(* ------------------------------------------------------------------ *)
(** ** No record is ever tagged *)

Lemma new_untagged :
  forall term lang rt rl rw i j, untagged (new term lang rt rl rw i j).
Proof. intros. split; reflexivity. Qed.

Lemma for_each_Forall :
  forall (A B : Type) (P : B -> Prop) (f : A -> result B) l bs,
    (forall a b, f a = Return b -> P b) ->
    for_each f l = Return bs -> Forall P bs.
Proof.
  intros A B P f l. induction l as [|a l IH]; intros bs Hf H; cbn in H.
  - injection H as <-. constructor.
  - destruct (f a) as [b|] eqn:E; [|discriminate].
    destruct (for_each f l) as [bs'|]; [|discriminate].
    injection H as <-. constructor; [apply (Hf a b E)|apply IH; auto].
Qed.

Ltac untag :=
  repeat first
    [ apply new_untagged
    | match goal with
      | |- all_untagged (if ?b then _ else _) => destruct b
      | |- all_untagged (Py.bind (str_at ?p ?k) _) => destruct (str_at p k); cbn [Py.bind]
      | |- all_untagged (Py.bind (for_each ?f ?l) _) =>
          let E := fresh "E" in
          destruct (for_each f l) eqn:E; cbn [Py.bind];
          [apply for_each_Forall with (P := untagged) in E|]
      | |- all_untagged (Return (Many _)) => cbn [all_untagged]
      | |- all_untagged (Return (One _)) => cbn [all_untagged]
      | |- all_untagged (Raise _) => exact I
      | |- Forall untagged (_ :: _) => constructor
      | |- Forall untagged [] => constructor
      | |- Forall untagged (_ ++ _) => apply Forall_app; split
      | H : Forall untagged ?l |- Forall untagged ?l => exact H
      | |- forall a b, _ -> untagged b =>
          let a := fresh "a" in let b := fresh "b" in let H := fresh "H" in
          intros [? ?] b H; revert H
      | |- Py.bind (str_at ?p ?k) _ = Return _ -> _ =>
          destruct (str_at p k); cbn [Py.bind]
      | |- Return _ = Return _ -> _ => intros [= <-]
      | |- Raise _ = Return _ -> _ => discriminate
      end ].

Lemma pure_untagged :
  forall term lang template i,
    Forall (fun g => all_untagged (g term lang template i))
      [inherited; derived; borrowed; learned_borrowing; orthographic_borrowing;
       semi_learned_borrowing; unadapted_borrowing; pie_root; root; affix;
       prefix; confix; suffix; compound; blend; clipping; back_form; doublet;
       onomatopoeic; calque; semantic_loan; named_after;
       phono_semantic_matching; mention; cognate; non_cognate; derived_parsed;
       abbreviation; initialism; default_func].
Proof.
  intros term lang template i.
  repeat constructor.
  all: unfold inherited, derived, borrowed, learned_borrowing, orthographic_borrowing,
       semi_learned_borrowing, unadapted_borrowing, pie_root, root, affix,
       prefix, confix, suffix, compound, blend, clipping, back_form, doublet,
       onomatopoeic, calque, semantic_loan, named_after,
       phono_semantic_matching, mention, cognate, non_cognate, derived_parsed,
       abbreviation, initialism, default_func, source_pair, lang_word, part_list.
  all: untag.
Qed.

Lemma adopt_untagged :
  forall parent k child,
    untagged parent -> untagged child -> untagged (adopt parent k child).
Proof.
  intros parent k child [Hg _] [Hcg Hcp]. unfold adopt.
  destruct (truthy_opt (parent_tag child)); split; cbn; assumption.
Qed.

Lemma unnest_nodes_untagged :
  forall parse_child parent ns k etys log,
    untagged parent ->
    Forall (fun n => match n with
                     | TemplateNode c => Forall untagged (fst (parse_child c))
                     | _ => True
                     end) ns ->
    Forall untagged etys ->
    Forall untagged (snd (fst (unnest_nodes parse_child parent ns (k, etys, log)))).
Proof.
  intros parse_child parent ns. induction ns as [|n ns IH];
    intros k etys log Hp Hns Hetys; cbn [unnest_nodes].
  - exact Hetys.
  - inversion Hns as [|n' ns' Hn Hns']; subst.
    destruct n as [v|t w|c|t l|r]; try (apply IH; assumption).
    destruct (parse_child c) as [child_etys child_log]. cbn [fst] in Hn.
    apply IH; try assumption.
    apply Forall_app. split; [assumption|].
    apply Forall_map. eapply Forall_impl; [|exact Hn].
    intros child Hc. now apply adopt_untagged.
Qed.

Lemma unnest_params_untagged :
  forall parse_child parent ps k etys log,
    untagged parent ->
    Forall (fun q => Forall (fun n => match n with
                                      | TemplateNode c =>
                                          Forall untagged (fst (parse_child c))
                                      | _ => True
                                      end) (value q)) ps ->
    Forall untagged etys ->
    Forall untagged (snd (fst (unnest_params parse_child parent ps (k, etys, log)))).
Proof.
  intros parse_child parent ps. induction ps as [|q ps IH];
    intros k etys log Hp Hps Hetys; cbn [unnest_params].
  - exact Hetys.
  - inversion Hps as [|q' ps' Hq Hps']; subst.
    destruct q as [nm v sk]. cbn [value] in Hq.
    pose proof (unnest_nodes_untagged parse_child parent v k etys log Hp Hq Hetys) as H.
    destruct (unnest_nodes parse_child parent v (k, etys, log)) as [[k' etys'] log'].
    cbn [fst snd] in H. now apply IH.
Qed.

(** No record built by [parse_template] carries a [group_tag] or a
    [parent_tag], whatever the construct and however deep its groups. *)
Lemma parse_template_untagged :
  forall template template_name term lang i,
    Forall untagged (fst (parse_template template_name term lang template i)).
Proof.
  intros template.
  enough (H : forall n,
             match n with
             | TemplateNode t =>
                 forall template_name term lang i,
                   Forall untagged (fst (parse_template template_name term lang t i))
             | _ => True
             end) by exact (H (TemplateNode template)).
  induction n as [v|t|t w IH|nm ps IH|t lvl|raw] using Node_induction;
    try exact I.
  intros template_name term lang i.
  rewrite parse_template_unfold.
  destruct (get_template_parser (strip template_name)) as [f|]; [|constructor].
  pose proof (pure_untagged term lang (mkTemplate nm ps) i) as Hpure.
  assert (Hnested : forall rt,
             Forall untagged
               (fst (unnest_template
                       (fun child => parse_template (name child) term lang child i)
                       term lang (mkTemplate nm ps) rt i))).
  { intros rt. unfold unnest_template.
    pose proof (unnest_params_untagged
                  (fun child => parse_template (name child) term lang child i)
                  (new term lang (rel_value rt) None None i 0) ps 0
                  [new term lang (rel_value rt) None None i 0] []) as H.
    destruct (unnest_params _ _ ps _) as [[k etys] log]. cbn [fst snd] in *.
    apply H.
    - apply new_untagged.
    - eapply Forall_impl; [|exact IH]. intros q Hq.
      eapply Forall_impl; [|exact Hq]. intros [v|t w|c|t l|r] Hn; try exact I.
      apply Hn.
    - constructor; [apply new_untagged|constructor]. }
  rewrite !Forall_cons_iff in Hpure.
  destruct f; cbn [call];
    try (match goal with
         | |- context [unnest_template ?pc ?a ?b ?c ?rt ?d] =>
             specialize (Hnested rt);
             destruct (unnest_template pc a b c rt d) as [etys log];
             exact Hnested
         end);
    match goal with
    | |- context [?g term lang (mkTemplate nm ps) i] =>
        assert (Hg : all_untagged (g term lang (mkTemplate nm ps) i)) by tauto;
        destruct (g term lang (mkTemplate nm ps) i) as [[e|l]|]; cbn [fst all_untagged] in *;
        [constructor; [assumption|constructor]|assumption|constructor]
    end.
Qed.

(* ------------------------------------------------------------------ *)
(** ** Group unnesting *)

Lemma unnest_nodes_extends :
  forall parse_child parent_ety ns k etys log,
  exists k' more log',
    unnest_nodes parse_child parent_ety ns (k, etys, log) = (k', etys ++ more, log').
Proof.
  intros parse_child parent_ety ns.
  induction ns as [|n ns IH]; intros k etys log; cbn.
  - exists k, [], log. now rewrite app_nil_r.
  - destruct n as [v|t w|c|t l|r]; try apply IH.
    destruct (parse_child c) as [child_etys child_log].
    destruct (IH (k + 1) (etys ++ map (adopt parent_ety k) child_etys) (log ++ child_log))
      as (k' & more & log' & E).
    exists k', (map (adopt parent_ety k) child_etys ++ more), log'.
    now rewrite E, app_assoc.
Qed.

Lemma unnest_params_extends :
  forall parse_child parent_ety ps k etys log,
  exists k' more log',
    unnest_params parse_child parent_ety ps (k, etys, log) = (k', etys ++ more, log').
Proof.
  intros parse_child parent_ety ps.
  induction ps as [|q ps IH]; intros k etys log; cbn.
  - exists k, [], log. now rewrite app_nil_r.
  - destruct q as [nm v sk].
    destruct (unnest_nodes_extends parse_child parent_ety v k etys log)
      as (k1 & more1 & log1 & E1).
    rewrite E1.
    destruct (IH k1 (etys ++ more1) log1) as (k2 & more2 & log2 & E2).
    exists k2, (more1 ++ more2), log2.
    now rewrite E2, app_assoc.
Qed.

(** Whatever the group holds, the anchor record comes first and its
    [group_tag] is [None]: no tag is generated for it. *)
Lemma unnest_template_anchor :
  forall parse_child term lang template reltype i,
  exists children,
    fst (unnest_template parse_child term lang template reltype i)
    = new term lang (rel_value reltype) None None i 0 :: children /\
    group_tag (new term lang (rel_value reltype) None None i 0) = None.
Proof.
  intros parse_child term lang [nm ps] reltype i.
  unfold unnest_template.
  destruct (unnest_params_extends parse_child
              (new term lang (rel_value reltype) None None i 0) ps 0
              [new term lang (rel_value reltype) None None i 0] [])
    as (k & more & log & E).
  rewrite E. exists more. split; reflexivity.
Qed.

(** C1. On [affix-parsed(affix(X, a, b))] the interpreter returns the anchor
    of kind GroupAffix with no object language or term, followed by the two
    affix records at positions 0 and 1 with [parent_position] 0; the
    anchor's [group_tag] and the children's [parent_tag] are all [None]. *)
Theorem affix_group_of_affix :
  forall term lang i,
    parse_template "affix-parsed" term lang
      (group "affix-parsed" [construct "affix" ["X"; "a"; "b"]]) i
    = ([ {| lang := lang; term := term; reltype := "group_affix_root";
            related_lang := None; related_term := None;
            definition_num := i; position := 0;
            group_tag := None; parent_tag := None; parent_position := None |};
         {| lang := lang; term := term; reltype := "has_affix";
            related_lang := Some "X"; related_term := Some "a";
            definition_num := i; position := 0;
            group_tag := None; parent_tag := None; parent_position := Some 0 |};
         {| lang := lang; term := term; reltype := "has_affix";
            related_lang := Some "X"; related_term := Some "b";
            definition_num := i; position := 1;
            group_tag := None; parent_tag := None; parent_position := Some 0 |} ],
       []).
Proof.
  intros term lang i. reflexivity.
Qed.

(* ------------------------------------------------------------------ *)
(** ** The deprecated [etyl] construct *)

Lemma split_from_head :
  forall s, exists rest, split_from s false = "" :: rest.
Proof.
  intros [|c r]; cbn.
  - now exists [""].
  - destruct (is_sep c); eauto.
Qed.

Lemma re_split_first :
  forall s, index (re_split_comma_space s) 0 = Return "".
Proof.
  intros s. unfold re_split_comma_space.
  destruct (split_from_head s) as [rest E]. now rewrite E.
Qed.

Lemma inspect_next_text :
  forall i q v, inspect_next i q (Text v) = Return (false, q, PStr "", []).
Proof.
  intros i q v. unfold inspect_next. rewrite re_split_first. reflexivity.
Qed.

(** C3. An [etyl] construct with at least one argument followed by a text
    node is removed and nothing takes its place, whatever the text: the
    first piece of the split is always the empty string. *)
Theorem etyl_before_text_is_dropped :
  forall q qs v,
    merge_etyl_templates [TemplateNode (mkTemplate "etyl" (q :: qs)); Text v]
    = Return [Text v].
Proof.
  intros q qs v.
  unfold merge_etyl_templates.
  change (indices_where _ _) with [0].
  cbn [for_state]. unfold etyl_step.
  rewrite index_0, index_1. cbn [bind params].
  rewrite index_0. cbn [bind].
  rewrite inspect_next_text.
  destruct qs as [|q' qs'].
  - reflexivity.
  - assert (E : (len (q :: q' :: qs') =? 1) = false).
    { apply Z.eqb_neq. unfold len. cbn [length]. lia. }
    rewrite E, index_1. reflexivity.
Qed.

(* ------------------------------------------------------------------ *)
(** ** Connector chains *)

(** The three sequences of the chain examples: [A "+" B] gives one group
    with [A], [B]; [A "+" B "+" C] one group with [A], [B], [C]; [A B]
    is left as it is.  The connectors stay in the sequence. *)
Lemma plus_chain_examples :
  forall a b c : Template,
    get_plus_combos [TemplateNode a; Text "+"; TemplateNode b]
    = Return [TemplateNode (group "affix-parsed" [a; b]); Text "+"] /\
    get_plus_combos [TemplateNode a; Text "+"; TemplateNode b; Text "+"; TemplateNode c]
    = Return [TemplateNode (group "affix-parsed" [a; b; c]); Text "+"; Text "+"] /\
    get_plus_combos [TemplateNode a; TemplateNode b]
    = Return [TemplateNode a; TemplateNode b].
Proof.
  intros a b c. repeat split; reflexivity.
Qed.

(** C5. In [A "+" [[link]] B "+" C] the constructs [A] and [B] are
    separated by two nodes, yet [A], [B] and [C] are merged into one
    affix group; the connectors and the link stay in the sequence. *)
Theorem chain_across_two_nodes :
  forall (a b c : Template) (title : string) (text : option (list Node)),
    get_plus_combos
      [TemplateNode a; Text "+"; Wikilink title text; TemplateNode b; Text "+";
       TemplateNode c]
    = Return [TemplateNode (group "affix-parsed" [a; b; c]);
              Text "+"; Wikilink title text; Text "+"].
Proof.
  intros a b c title text. reflexivity.
Qed.

(* ------------------------------------------------------------------ *)
(** ** Running the normalizer again *)



Lemma strip_noise_settled :
  forall wc, no_noise wc = true -> strip_noise wc = wc.
Proof.
  intros wc H. apply forallb_filter_id, H.
Qed.









(* ------------------------------------------------------------------ *)
(** ** Validity of the records returned for a page *)

Lemma is_valid_proper : forall e, is_valid e = true -> proper_term e.
Proof.
  intros e H. unfold is_valid in H. unfold proper_term.
  destruct (related_term e) as [s|]; [|split; discriminate].
  apply negb_true_iff, orb_false_iff in H. destruct H as [H1 H2].
  apply String.eqb_neq in H1, H2.
  split; intros [= ->]; congruence.
Qed.

(** C2. Every record of the sequence [parse_wikitext] returns has an object
    term that is neither the empty string nor ["-"]. *)
Theorem parse_wikitext_valid :
  forall term wikitext etys log,
    parse_wikitext term wikitext = Return (etys, log) ->
    Forall proper_term etys.
Proof.
  intros term wikitext etys log H. unfold parse_wikitext in H.
  destruct (for_state (parse_language_section term) wikitext ([], [])) as [r|e];
    cbn [bind] in H; [|discriminate].
  injection H as <- _.
  apply Forall_forall. intros e He.
  apply filter_In in He. apply is_valid_proper, He.
Qed.

Lemma parse_wikitext_valid_witness :
  Forall proper_term
    [ {| lang := "English"; term := "w"; reltype := "group_affix_root";
         related_lang := None; related_term := None;
         definition_num := 1; position := 0;
         group_tag := None; parent_tag := None; parent_position := None |};
      {| lang := "English"; term := "w"; reltype := "etymologically_related_to";
         related_lang := Some "en"; related_term := Some "a";
         definition_num := 1; position := 0;
         group_tag := None; parent_tag := None; parent_position := Some 0 |};
      {| lang := "English"; term := "w"; reltype := "etymologically_related_to";
         related_lang := Some "en"; related_term := Some "b";
         definition_num := 1; position := 0;
         group_tag := None; parent_tag := None; parent_position := Some 1 |} ].
Proof.
  apply (parse_wikitext_valid "w" sample_page _
           [mkLog "w" "English" "{{prefix|en}}"]).
  reflexivity.
Defined.

(* ================================================================== *)
(** * Further properties *)
(* ================================================================== *)

(* ------------------------------------------------------------------ *)
(** ** Interpreters on well-formed and on short constructs *)

Lemma slice_from_1 :
  forall (A : Type) (a : A) (l : list A), slice (a :: l) 1 None = l.
Proof.
  intros A a l. exact (slice_tail A [a] l).
Qed.

Lemma morpheme_loop :
  forall term lang rt rl i (p : list Param) k morphemes,
    str_at p k = Return rl ->
    for_each (fun jr : Z * Param =>
                let (j, r) := jr in
                x <- str_at p k ;;
                Return (new term lang (rel_value rt) (Some x)
                            (Some (str_parameter r)) i j))
             (enumerate morphemes)
    = Return (morpheme_records term lang rt rl i morphemes).
Proof.
  intros term lang rt rl i p k morphemes H.
  rewrite (for_each_ext _ _ _
             (fun jr : Z * Param =>
                Return (new term lang (rel_value rt) (Some rl)
                            (Some (str_parameter (snd jr))) i (fst jr)))).
  - apply for_each_return.
  - intros [j r]. rewrite H. reflexivity.
Qed.

(** X1. [affix], [compound], [blend] and [doublet] never raise: without
    positional argument they return the empty list, and otherwise one
    record per argument after the first, of their kind, with the first
    argument as object language and the argument's index as position. *)
Theorem part_list_records :
  forall term lang template i,
    Forall (fun gk : (string -> string -> Template -> Z -> result Parsed) * RelType =>
              fst gk term lang template i
              = Return (Many
                  match positional template with
                  | [] => []
                  | l :: parts =>
                      morpheme_records term lang (snd gk) (str_parameter l) i parts
                  end))
           part_list_family.
Proof.
  intros term lang template i.
  assert (H : forall rt,
             part_list rt term lang template i
             = Return (Many
                 match positional template with
                 | [] => []
                 | l :: parts =>
                     morpheme_records term lang rt (str_parameter l) i parts
                 end)).
  { intros rt. unfold part_list.
    destruct (positional template) as [|l parts].
    - reflexivity.
    - rewrite slice_from_1.
      rewrite (morpheme_loop term lang rt (str_parameter l)) by reflexivity.
      reflexivity. }
  repeat constructor; apply H.
Qed.

Lemma pie_root_eval :
  forall term lang template i,
    pie_root term lang template i
    = Return (Many (morpheme_records term lang Root "ine-pro" i
                      (tl (positional template)))).
Proof.
  intros term lang template i. unfold pie_root.
  destruct (positional template) as [|l parts].
  - reflexivity.
  - rewrite slice_from_1. cbn [tl].
    rewrite (for_each_ext _ _ _
               (fun jr : Z * Param =>
                  Return (new term lang (rel_value Root) (Some "ine-pro")
                              (Some (str_parameter (snd jr))) i (fst jr)))).
    + rewrite for_each_return. reflexivity.
    + intros [j r]. reflexivity.
Qed.

(** X2. [pie_root] never raises: every positional argument after the first
    gives a Root record with object language ["ine-pro"], whatever the first
    argument is. *)
Theorem pie_root_records :
  forall term lang template i,
    pie_root term lang template i
    = Return (Many (morpheme_records term lang Root "ine-pro" i
                      (tl (positional template)))).
Proof.
  exact pie_root_eval.
Qed.

(** X3. [root] with fewer than three positional arguments returns the empty
    list: the language argument is read only inside the loop over the
    morphemes, so nothing is raised. *)
Theorem root_short :
  forall term lang template i,
    len (positional template) < 3 ->
    root term lang template i = Return (Many []).
Proof.
  intros term lang template i H. unfold root.
  destruct (positional template) as [|l [|x [|m ms]]]; try reflexivity.
  unfold len in H. cbn [length] in H. lia.
Qed.

Lemma root_short_witness :
  len (positional (construct "root" ["en"; "ine-pro"])) < 3 /\
  root "word" "English" (construct "root" ["en"; "ine-pro"]) 0 = Return (Many []).
Proof.
  split; [reflexivity|].
  apply (root_short "word" "English" (construct "root" ["en"; "ine-pro"]) 0).
  reflexivity.
Defined.

Lemma index_2 : forall (A : Type) (a b c : A) l, index (a :: b :: c :: l) 2 = Return c.
Proof. reflexivity. Qed.

Lemma len_ge_3 : forall (A : Type) (a b c : A) l, (len (a :: b :: c :: l) <? 3) = false.
Proof. intros. apply Z.ltb_ge. unfold len. cbn [length]. lia. Qed.

Lemma len_ge_2 : forall (A : Type) (a b : A) l, (len (a :: b :: l) <? 2) = false.
Proof. intros. apply Z.ltb_ge. unfold len. cbn [length]. lia. Qed.

(** X4. With at least three positional arguments each interpreter of the
    (lang, source lang, source word) family returns exactly one record, of
    its kind, at position 0: the object language is argument 1 and the
    object term argument 2; argument 0 and the arguments after the third
    are not read. *)
Theorem source_pair_record :
  forall term lang template i l x w rest,
    positional template = l :: x :: w :: rest ->
    Forall (fun gk : (string -> string -> Template -> Z -> result Parsed) * RelType =>
              fst gk term lang template i
              = Return (One (new term lang (rel_value (snd gk))
                                 (Some (str_parameter x)) (Some (str_parameter w)) i 0)))
           source_pair_family.
Proof.
  intros term lang template i l x w rest H.
  assert (G : forall rt,
             source_pair rt term lang template i
             = Return (One (new term lang (rel_value rt)
                                (Some (str_parameter x)) (Some (str_parameter w)) i 0))).
  { intros rt. unfold source_pair, str_at. rewrite H, len_ge_3, index_1, index_2.
    reflexivity. }
  repeat constructor; apply G.
Qed.

Lemma source_pair_record_witness :
  positional (construct "bor" ["en"; "fr"; "mot"; "extra"])
  = [mkParam "1" [Text "en"] false; mkParam "2" [Text "fr"] false;
     mkParam "3" [Text "mot"] false; mkParam "4" [Text "extra"] false] /\
  borrowed "word" "English" (construct "bor" ["en"; "fr"; "mot"; "extra"]) 2
  = Return (One (new "word" "English" "borrowed_from" (Some "fr") (Some "mot") 2 0)).
Proof.
  split; [reflexivity|].
  exact (Forall_inv (Forall_inv_tail
           (source_pair_record "word" "English"
              (construct "bor" ["en"; "fr"; "mot"; "extra"]) 2
              (mkParam "1" [Text "en"] false) (mkParam "2" [Text "fr"] false)
              (mkParam "3" [Text "mot"] false) [mkParam "4" [Text "extra"] false]
              eq_refl))).
Defined.

(** X5. With at least two positional arguments each interpreter of the
    (lang, source word) family returns exactly one record at position 0
    with object language argument 0 and object term argument 1;
    [non_cognate] gives it the kind of [mention]. *)
Theorem lang_word_record :
  forall term lang template i l w rest,
    positional template = l :: w :: rest ->
    Forall (fun gk : (string -> string -> Template -> Z -> result Parsed) * RelType =>
              fst gk term lang template i
              = Return (One (new term lang (rel_value (snd gk))
                                 (Some (str_parameter l)) (Some (str_parameter w)) i 0)))
           lang_word_family.
Proof.
  intros term lang template i l w rest H.
  assert (G : forall rt,
             lang_word rt term lang template i
             = Return (One (new term lang (rel_value rt)
                                (Some (str_parameter l)) (Some (str_parameter w)) i 0))).
  { intros rt. unfold lang_word, str_at. rewrite H, len_ge_2, index_0, index_1.
    reflexivity. }
  repeat constructor; apply G.
Qed.

Lemma lang_word_record_witness :
  positional (construct "noncog" ["de"; "Wort"])
  = [mkParam "1" [Text "de"] false; mkParam "2" [Text "Wort"] false] /\
  non_cognate "word" "English" (construct "noncog" ["de"; "Wort"]) 0
  = Return (One (new "word" "English" "etymologically_related_to"
                     (Some "de") (Some "Wort") 0 0)) /\
  mention "word" "English" (construct "noncog" ["de"; "Wort"]) 0
  = non_cognate "word" "English" (construct "noncog" ["de"; "Wort"]) 0.
Proof.
  pose proof (lang_word_record "word" "English" (construct "noncog" ["de"; "Wort"]) 0
                (mkParam "1" [Text "de"] false) (mkParam "2" [Text "Wort"] false) []
                eq_refl) as H.
  split; [reflexivity|]. split.
  - exact (Forall_inv (Forall_inv_tail (Forall_inv_tail (Forall_inv_tail
             (Forall_inv_tail (Forall_inv_tail (Forall_inv_tail (Forall_inv_tail H)))))))).
  - reflexivity.
Defined.

Lemma positional_idem :
  forall nm nm' ps,
    positional (mkTemplate nm (positional (mkTemplate nm' ps)))
    = positional (mkTemplate nm' ps).
Proof.
  intros nm nm' ps. unfold positional. cbn [params].
  induction ps as [|q ps IH]; cbn [filter]; [reflexivity|].
  destruct (negb (showkey q)) eqn:E; cbn [filter]; [rewrite E|]; now rewrite ?IH.
Qed.

(** X6. The interpreters that do not unnest read the positional arguments
    only: removing the keyed arguments of a construct, and renaming it,
    changes nothing to what each of them returns. *)
Theorem keyed_arguments_ignored :
  forall term lang nm nm' ps i,
    Forall (fun g : string -> string -> Template -> Z -> result Parsed =>
              g term lang (mkTemplate nm' (positional (mkTemplate nm ps))) i
              = g term lang (mkTemplate nm ps) i)
           flat_interpreters.
Proof.
  intros term lang nm nm' ps i.
  repeat constructor.
  all: unfold inherited, derived, borrowed, learned_borrowing, orthographic_borrowing,
       semi_learned_borrowing, unadapted_borrowing, pie_root, root, affix,
       prefix, confix, suffix, compound, blend, clipping, back_form, doublet,
       onomatopoeic, calque, semantic_loan, named_after,
       phono_semantic_matching, mention, cognate, non_cognate, derived_parsed,
       abbreviation, initialism, default_func, source_pair, lang_word, part_list.
  all: rewrite ?positional_idem; reflexivity.
Qed.

(** X7. [prefix] with at least two positional arguments: the Prefix record
    of argument 1 alone when there is no third argument or its text is
    empty, and otherwise that record followed by the PrefixRoot record of
    argument 2, both at position 0 with object language argument 0. *)
Theorem prefix_records :
  forall term lang template i l w rest,
    positional template = l :: w :: rest ->
    prefix term lang template i
    = let pre := new term lang (rel_value Prefix) (Some (str_parameter l))
                     (Some (str_parameter w)) i 0 in
      Return
        match rest with
        | [] => One pre
        | r :: _ =>
            if truthy (str_parameter r)
            then Many [pre; new term lang (rel_value PrefixRoot) (Some (str_parameter l))
                                (Some (str_parameter r)) i 0]
            else One pre
        end.
Proof.
  intros term lang template i l w rest H. unfold prefix, str_at.
  rewrite H, index_0, index_1. cbn [bind].
  destruct rest as [|r rest].
  - reflexivity.
  - assert (E : (2 <? len (l :: w :: r :: rest)) = true).
    { apply Z.ltb_lt. unfold len. cbn [length]. lia. }
    rewrite E, index_2. cbn [bind].
    destruct (truthy (str_parameter r)); reflexivity.
Qed.

Lemma prefix_records_witness :
  positional (mkTemplate "prefix"
                [mkParam "1" [Text "en"] false; mkParam "2" [Text "un"] false;
                 mkParam "3" [] false])
  = [mkParam "1" [Text "en"] false; mkParam "2" [Text "un"] false; mkParam "3" [] false] /\
  prefix "undo" "English"
    (mkTemplate "prefix"
       [mkParam "1" [Text "en"] false; mkParam "2" [Text "un"] false;
        mkParam "3" [] false]) 0
  = Return (One (new "undo" "English" "has_prefix" (Some "en") (Some "un") 0 0)).
Proof.
  split; [reflexivity|].
  exact (prefix_records "undo" "English"
           (mkTemplate "prefix"
              [mkParam "1" [Text "en"] false; mkParam "2" [Text "un"] false;
               mkParam "3" [] false]) 0
           (mkParam "1" [Text "en"] false) (mkParam "2" [Text "un"] false)
           [mkParam "3" [] false] eq_refl).
Defined.

(** X8. [suffix] with at least three positional arguments returns two
    records at position 0 with object language argument 0: first the root,
    argument 1, then the suffix, argument 2.  The kind of the root record is
    the one [prefix] gives to its root record. *)
Theorem suffix_records :
  forall term lang template i l r s rest,
    positional template = l :: r :: s :: rest ->
    suffix term lang template i
    = Return (Many [new term lang "has_prefix_with_root" (Some (str_parameter l))
                        (Some (str_parameter r)) i 0;
                    new term lang "has_suffix" (Some (str_parameter l))
                        (Some (str_parameter s)) i 0]) /\
    rel_value SuffixRoot = rel_value PrefixRoot.
Proof.
  intros term lang template i l r s rest H. split; [|reflexivity].
  unfold suffix, str_at. rewrite H.
  assert (G : (str_list_len (map str_parameter (l :: r :: s :: rest)) <? 3) = false).
  { apply Z.ltb_ge. cbn [map].
    pose proof (str_list_len_cons (str_parameter l)
                  (map str_parameter (r :: s :: rest))). cbn [map] in *. lia. }
  rewrite G, index_0, index_1, index_2. reflexivity.
Qed.

Lemma suffix_records_witness :
  positional (construct "suffix" ["en"; "kind"; "ness"])
  = [mkParam "1" [Text "en"] false; mkParam "2" [Text "kind"] false;
     mkParam "3" [Text "ness"] false] /\
  suffix "kindness" "English" (construct "suffix" ["en"; "kind"; "ness"]) 0
  = Return (Many [new "kindness" "English" "has_prefix_with_root" (Some "en") (Some "kind") 0 0;
                  new "kindness" "English" "has_suffix" (Some "en") (Some "ness") 0 0]).
Proof.
  split; [reflexivity|].
  exact (proj1 (suffix_records "kindness" "English"
                  (construct "suffix" ["en"; "kind"; "ness"]) 0
                  (mkParam "1" [Text "en"] false) (mkParam "2" [Text "kind"] false)
                  (mkParam "3" [Text "ness"] false) [] eq_refl)).
Defined.

(** X9. [suffix] with one or two positional arguments raises [IndexError]:
    its guard compares the length of the rendering of the argument list,
    which is below 3 only for the empty list. *)
Theorem suffix_guard :
  forall term lang template i,
    0 < len (positional template) < 3 ->
    suffix term lang template i = Raise IndexError /\
    fst (parse_template "suffix" term lang template i) = [].
Proof.
  intros term lang template i H.
  assert (E : suffix term lang template i = Raise IndexError).
  { unfold suffix. destruct (positional template) as [|x r].
    - unfold len in H. cbn [length] in H. lia.
    - assert (G : (str_list_len (map str_parameter (x :: r)) <? 3) = false).
      { apply Z.ltb_ge. cbn [map].
        pose proof (str_list_len_cons (str_parameter x) (map str_parameter r)). lia. }
      rewrite G. destruct r as [|y [|z r]]; try reflexivity.
      unfold len in H. cbn [length] in H. lia. }
  split; [exact E|].
  rewrite parse_template_unfold.
  change (get_template_parser (strip "suffix")) with (Some f_suffix).
  cbn [call]. rewrite E. reflexivity.
Qed.

Lemma suffix_guard_witness :
  0 < len (positional (construct "suffix" ["en"; "kind"])) < 3 /\
  suffix "kindness" "English" (construct "suffix" ["en"; "kind"]) 0 = Raise IndexError.
Proof.
  assert (H : 0 < len (positional (construct "suffix" ["en"; "kind"])) < 3)
    by (split; reflexivity).
  split; [exact H|].
  exact (proj1 (suffix_guard "kindness" "English"
                  (construct "suffix" ["en"; "kind"]) 0 H)).
Defined.

(** X10. [confix] with the language and a single affix returns the record
    of that affix twice, both at position 0; with fewer than two
    positional arguments it raises [IndexError]. *)
Theorem confix_single_affix :
  forall term lang template i,
    (forall l a, positional template = [l; a] ->
       confix term lang template i
       = Return (Many [new term lang (rel_value Confix) (Some (str_parameter l))
                           (Some (str_parameter a)) i 0;
                       new term lang (rel_value Confix) (Some (str_parameter l))
                           (Some (str_parameter a)) i 0])) /\
    (len (positional template) < 2 -> confix term lang template i = Raise IndexError).
Proof.
  intros term lang template i. split.
  - intros l a H. unfold confix. rewrite H. reflexivity.
  - intros H. unfold confix.
    destruct (positional template) as [|x [|y r]]; try reflexivity.
    unfold len in H. cbn [length] in H. lia.
Qed.

Lemma confix_single_affix_witness :
  positional (construct "confix" ["en"; "bio"])
  = [mkParam "1" [Text "en"] false; mkParam "2" [Text "bio"] false] /\
  confix "w" "English" (construct "confix" ["en"; "bio"]) 0
  = Return (Many [new "w" "English" "has_confix" (Some "en") (Some "bio") 0 0;
                  new "w" "English" "has_confix" (Some "en") (Some "bio") 0 0]) /\
  len (positional (construct "confix" ["en"])) < 2 /\
  confix "w" "English" (construct "confix" ["en"]) 0 = Raise IndexError.
Proof.
  split; [reflexivity|]. split.
  - exact (proj1 (confix_single_affix "w" "English" (construct "confix" ["en"; "bio"]) 0)
             (mkParam "1" [Text "en"] false) (mkParam "2" [Text "bio"] false) eq_refl).
  - split; [reflexivity|].
    exact (proj2 (confix_single_affix "w" "English" (construct "confix" ["en"]) 0)
             eq_refl).
Defined.

(* ------------------------------------------------------------------ *)
(** ** What every record carries *)

Lemma for_each_Forall_in :
  forall (A B : Type) (P : B -> Prop) (f : A -> result B) l bs,
    (forall a b, In a l -> f a = Return b -> P b) ->
    for_each f l = Return bs -> Forall P bs.
Proof.
  intros A B P f l. induction l as [|a l IH]; intros bs Hf H; cbn in H.
  - injection H as <-. constructor.
  - destruct (f a) as [b|] eqn:E; [|discriminate].
    destruct (for_each f l) as [bs'|] eqn:E'; [|discriminate].
    injection H as <-. constructor.
    + apply (Hf a b); [now left|exact E].
    + apply IH; [|reflexivity]. intros a' b' Hin. apply Hf. now right.
Qed.

Lemma enumerate_from_lower :
  forall (A : Type) (l : list A) k j x, In (j, x) (enumerate_from k l) -> k <= j.
Proof.
  intros A l. induction l as [|a l IH]; intros k j x H; cbn in H; [contradiction|].
  destruct H as [[= <- _]|H]; [lia|]. apply IH in H. lia.
Qed.

Lemma str_at_defined :
  forall p k x, 0 <= k -> str_at p k = Return x -> k < len p.
Proof.
  intros p k x Hk H. unfold str_at, index in H.
  destruct (k <? 0) eqn:E; [apply Z.ltb_lt in E; lia|]. rewrite E in H.
  destruct (nth_error p (Z.to_nat k)) as [a|] eqn:N; [|discriminate].
  assert (Z.to_nat k < length p)%nat by (apply nth_error_Some; congruence).
  unfold len. lia.
Qed.

Ltac about_new :=
  unfold about; cbn [Elements.term Elements.lang definition_num position new];
  repeat split; try reflexivity; try lia.

Ltac about_step :=
  match goal with
  | |- all_about _ _ _ (if ?b then _ else _) => destruct b
  | |- all_about _ _ _ (Py.bind (str_at ?p ?k) _) =>
      let E := fresh "E" in
      destruct (str_at p k) eqn:E; cbn [Py.bind];
      [try (apply str_at_defined in E; [|lia])|]
  | |- all_about ?t ?lg ?i (Py.bind (for_each ?f ?l) _) =>
      let E := fresh "E" in
      destruct (for_each f l) eqn:E; cbn [Py.bind];
      [apply for_each_Forall_in with (P := about t lg i) in E|]
  | |- all_about _ _ _ (Return _) => cbn [all_about]
  | |- all_about _ _ _ (Raise _) => exact I
  | |- Forall _ (_ :: _) => constructor
  | |- Forall _ [] => constructor
  | |- Forall _ (_ ++ _) => apply Forall_app; split
  | H : Forall ?P ?l |- Forall ?P ?l => exact H
  | |- about _ _ _ (new _ _ _ _ _ _ _) => about_new
  | |- forall a b, In a _ -> _ -> about _ _ _ b =>
      let j := fresh "j" in let r := fresh "r" in let b := fresh "b" in
      let Hin := fresh "Hin" in let H := fresh "H" in
      intros [j r] b Hin H; apply enumerate_from_lower in Hin; revert H
  | |- Py.bind (str_at ?p ?k) _ = Return _ -> _ =>
      destruct (str_at p k); cbn [Py.bind]
  | |- Return _ = Return _ -> _ => intros [= <-]
  | |- Raise _ = Return _ -> _ => discriminate
  end.

Lemma flat_about :
  forall term lang template i,
    Forall (fun g : string -> string -> Template -> Z -> result Parsed =>
              all_about term lang i (g term lang template i))
           flat_interpreters.
Proof.
  intros term lang template i.
  repeat constructor.
  all: unfold inherited, derived, borrowed, learned_borrowing, orthographic_borrowing,
       semi_learned_borrowing, unadapted_borrowing, pie_root, root, affix,
       prefix, confix, suffix, compound, blend, clipping, back_form, doublet,
       onomatopoeic, calque, semantic_loan, named_after,
       phono_semantic_matching, mention, cognate, non_cognate, derived_parsed,
       abbreviation, initialism, default_func, source_pair, lang_word, part_list.
  all: repeat about_step.
Qed.

Section UnnestPreserves.

Variable P : Etymology -> Prop.
Variable parse_child : Template -> list Etymology * list LogRecord.
Variable parent : Etymology.
Hypothesis adopt_keeps : forall k child, P child -> P (adopt parent k child).

Lemma unnest_nodes_Forall :
  forall ns k etys log,
    Forall (fun n => match n with
                     | TemplateNode c => Forall P (fst (parse_child c))
                     | _ => True
                     end) ns ->
    Forall P etys ->
    Forall P (snd (fst (unnest_nodes parse_child parent ns (k, etys, log)))).
Proof.
  induction ns as [|n ns IH]; intros k etys log Hns Hetys; cbn [unnest_nodes].
  - exact Hetys.
  - inversion Hns as [|n' ns' Hn Hns']; subst.
    destruct n as [v|t w|c|t l|r]; try (apply IH; assumption).
    destruct (parse_child c) as [child_etys child_log]. cbn [fst] in Hn.
    apply IH; [assumption|].
    apply Forall_app. split; [assumption|].
    apply Forall_map. eapply Forall_impl; [|exact Hn].
    intros child. apply adopt_keeps.
Qed.

Lemma unnest_params_Forall :
  forall ps k etys log,
    Forall (fun q => Forall (fun n => match n with
                                      | TemplateNode c => Forall P (fst (parse_child c))
                                      | _ => True
                                      end) (value q)) ps ->
    Forall P etys ->
    Forall P (snd (fst (unnest_params parse_child parent ps (k, etys, log)))).
Proof.
  induction ps as [|q ps IH]; intros k etys log Hps Hetys; cbn [unnest_params].
  - exact Hetys.
  - inversion Hps as [|q' ps' Hq Hps']; subst.
    destruct q as [nm v sk]. cbn [value] in Hq.
    pose proof (unnest_nodes_Forall v k etys log Hq Hetys) as H.
    destruct (unnest_nodes parse_child parent v (k, etys, log)) as [[k' etys'] log'].
    cbn [fst snd] in H. now apply IH.
Qed.

End UnnestPreserves.

Lemma adopt_about :
  forall term lang i parent k child,
    about term lang i child -> about term lang i (adopt parent k child).
Proof.
  intros term lang i parent k child H. unfold adopt.
  destruct (truthy_opt (parent_tag child)); exact H.
Qed.

(** X11. Every record [parse_template] returns, for any construct and at
    any depth of grouping, has the subject term, the subject language and
    the definition number of the call, and a position that is not
    negative. *)
Theorem parse_template_about :
  forall template template_name term lang i,
    Forall (about term lang i)
           (fst (parse_template template_name term lang template i)).
Proof.
  intros template.
  enough (H : forall n,
             match n with
             | TemplateNode t =>
                 forall template_name term lang i,
                   Forall (about term lang i)
                          (fst (parse_template template_name term lang t i))
             | _ => True
             end) by exact (H (TemplateNode template)).
  induction n as [v|t|t w IH|nm ps IH|t lvl|raw] using Node_induction;
    try exact I.
  intros template_name term lang i.
  rewrite parse_template_unfold.
  destruct (get_template_parser (strip template_name)) as [f|]; [|constructor].
  pose proof (flat_about term lang (mkTemplate nm ps) i) as Hflat.
  assert (Hnested : forall rt,
             Forall (about term lang i)
               (fst (unnest_template
                       (fun child => parse_template (name child) term lang child i)
                       term lang (mkTemplate nm ps) rt i))).
  { intros rt. unfold unnest_template.
    pose proof (unnest_params_Forall (about term lang i)
                  (fun child => parse_template (name child) term lang child i)
                  (new term lang (rel_value rt) None None i 0)
                  (adopt_about term lang i _) ps 0
                  [new term lang (rel_value rt) None None i 0] []) as H.
    destruct (unnest_params _ _ ps _) as [[k etys] log]. cbn [fst snd] in *.
    apply H.
    - eapply Forall_impl; [|exact IH]. intros q Hq.
      eapply Forall_impl; [|exact Hq]. intros [v|t w|c|t l|r] Hn; try exact I.
      apply Hn.
    - constructor; [about_new|constructor]. }
  unfold flat_interpreters in Hflat. rewrite !Forall_cons_iff in Hflat.
  destruct f; cbn [call];
    try (match goal with
         | |- context [unnest_template ?pc ?a ?b ?c ?rt ?d] =>
             specialize (Hnested rt);
             destruct (unnest_template pc a b c rt d) as [etys log];
             exact Hnested
         end);
    match goal with
    | |- context [?g term lang (mkTemplate nm ps) i] =>
        assert (Hg : all_about term lang i (g term lang (mkTemplate nm ps) i)) by tauto;
        destruct (g term lang (mkTemplate nm ps) i) as [[e|l]|]; cbn [fst all_about] in *;
        [constructor; [assumption|constructor]|assumption|constructor]
    end.
Qed.

(* ------------------------------------------------------------------ *)
(** ** Groups built by the chain merger *)

Lemma adopt_untagged_child :
  forall parent k child, untagged child -> adopt parent k child = with_parent child parent k.
Proof.
  intros parent k child [_ H]. unfold adopt. now rewrite H.
Qed.

Lemma unnest_members :
  forall term lang i anchor members first idx etys log,
    snd (fst (unnest_params
                (fun child => parse_template (name child) term lang child i) anchor
                (map (fun ix : Z * Template =>
                        mkParam (str_int (fst ix + 1)) [TemplateNode (snd ix)] false)
                     (enumerate_from first members))
                (idx, etys, log)))
    = etys ++ member_records term lang i anchor idx members.
Proof.
  intros term lang i anchor members.
  induction members as [|m members IH]; intros first idx etys log;
    cbn [enumerate_from map unnest_params unnest_nodes].
  - unfold member_records. cbn. now rewrite app_nil_r.
  - cbn [snd].
    destruct (parse_template (name m) term lang m i) as [child_etys child_log] eqn:E.
    rewrite IH. unfold member_records. cbn [enumerate_from flat_map fst snd].
    rewrite E. cbn [fst]. rewrite <- app_assoc. do 2 f_equal.
    apply map_ext_in. intros child Hc. apply adopt_untagged_child.
    pose proof (parse_template_untagged m (name m) term lang i) as U.
    rewrite E in U. cbn [fst] in U. rewrite Forall_forall in U. now apply U.
Qed.

Lemma group_unnested :
  forall term lang i nm members nk,
    In nk group_names ->
    fst (parse_template (fst nk) term lang (group nm members) i)
    = new term lang (rel_value (snd nk)) None None i 0
      :: member_records term lang i
           (new term lang (rel_value (snd nk)) None None i 0) 0 members.
Proof.
  intros term lang i nm members nk Hnk.
  assert (H : forall rt,
             fst (unnest_template
                    (fun child => parse_template (name child) term lang child i)
                    term lang (group nm members) rt i)
             = new term lang (rel_value rt) None None i 0
               :: member_records term lang i
                    (new term lang (rel_value rt) None None i 0) 0 members).
  { intros rt. unfold unnest_template, group, numbered_params, enumerate.
    pose proof (unnest_members term lang i (new term lang (rel_value rt) None None i 0)
                  members 0 0 [new term lang (rel_value rt) None None i 0] []) as U.
    destruct (unnest_params _ _ _ _) as [[k etys] log]. cbn [fst snd] in *.
    exact U. }
  destruct Hnk as [<-|[<-|[<-|[]]]]; cbn [fst snd]; rewrite parse_template_unfold.
  - change (get_template_parser (strip "affix-parsed")) with (Some f_affix_parsed).
    cbn [call]. specialize (H GroupAffix).
    destruct (unnest_template _ _ _ _ _ _) as [etys log]. exact H.
  - change (get_template_parser (strip "from-parsed")) with (Some f_from_parsed).
    cbn [call]. specialize (H GroupDerived).
    destruct (unnest_template _ _ _ _ _ _) as [etys log]. exact H.
  - change (get_template_parser (strip "related-parsed")) with (Some f_related_parsed).
    cbn [call]. specialize (H GroupMention).
    destruct (unnest_template _ _ _ _ _ _) as [etys log]. exact H.
Qed.

(** X12. For a group as the chain merger builds it, each of the three group
    interpreters returns the anchor (its group kind, no object language or
    term, no tag) followed by the records of the members in order, every
    record of member [k] - those of groups nested in it included -
    re-parented with [parent_position] [k] and the anchor's empty tag. *)
Theorem group_records :
  forall term lang i nm members,
    Forall (fun nk : string * RelType =>
              let anchor := new term lang (rel_value (snd nk)) None None i 0 in
              fst (parse_template (fst nk) term lang (group nm members) i)
              = anchor :: member_records term lang i anchor 0 members)
           group_names.
Proof.
  intros term lang i nm members. apply Forall_forall. intros nk Hnk.
  now apply group_unnested.
Qed.

Lemma filter_valid_reparented :
  forall anchor k l,
    filter is_valid (map (fun e => with_parent e anchor k) l)
    = map (fun e => with_parent e anchor k) (filter is_valid l).
Proof.
  intros anchor k l. induction l as [|e l IH]; cbn [map filter]; [reflexivity|].
  change (is_valid (with_parent e anchor k)) with (is_valid e).
  destruct (is_valid e); cbn [map]; now rewrite IH.
Qed.

(** X26. The anchor of a group always passes the validity filter, and
    re-parenting does not change the validity of a record: of the records of
    a group the driver keeps the anchor and the valid records of the
    members - the anchor alone when no member gives a valid record. *)
Theorem group_anchor_kept :
  forall term lang i nm members nk,
    In nk group_names ->
    let anchor := new term lang (rel_value (snd nk)) None None i 0 in
    filter is_valid (fst (parse_template (fst nk) term lang (group nm members) i))
    = anchor
      :: flat_map (fun km : Z * Template =>
                     map (fun e => with_parent e anchor (fst km))
                         (filter is_valid
                            (fst (parse_template (name (snd km)) term lang (snd km) i))))
                  (enumerate members).
Proof.
  intros term lang i nm members nk Hnk anchor.
  rewrite (group_unnested term lang i nm members nk Hnk). fold anchor.
  cbn [filter]. change (is_valid anchor) with true. cbv iota. f_equal.
  unfold member_records, enumerate. generalize 0.
  induction members as [|m members IH]; intros k; cbn [enumerate_from flat_map];
    [reflexivity|].
  rewrite filter_app, filter_valid_reparented, IH. reflexivity.
Qed.

Lemma group_anchor_kept_witness :
  In ("affix-parsed", GroupAffix) group_names /\
  filter is_valid
    (fst (parse_template "affix-parsed" "w" "English"
            (group "affix-parsed"
               [construct "m" ["en"; "-"]; construct "m" ["en"; "-"]]) 0))
  = [new "w" "English" "group_affix_root" None None 0 0].
Proof.
  assert (H : In ("affix-parsed", GroupAffix) group_names) by (now left).
  split; [exact H|].
  exact (group_anchor_kept "w" "English" 0 "affix-parsed"
           [construct "m" ["en"; "-"]; construct "m" ["en"; "-"]]
           ("affix-parsed", GroupAffix) H).
Defined.

(* ------------------------------------------------------------------ *)
(** ** The passes of the normalizer *)

Lemma filter_templates_app :
  forall a b, filter_templates (a ++ b) = filter_templates a ++ filter_templates b.
Proof.
  induction a as [|n a IH]; intros b; cbn [app filter_templates]; [reflexivity|].
  destruct n; cbn [app]; now rewrite IH.
Qed.

(** X13. Noise stripping leaves no noise node, keeps every top-level
    construct in order, and changes nothing when run again. *)
Theorem strip_noise_keeps_constructs :
  forall wc,
    no_noise (strip_noise wc) = true /\
    filter_templates (strip_noise wc) = filter_templates wc /\
    strip_noise (strip_noise wc) = strip_noise wc.
Proof.
  intros wc.
  assert (H1 : no_noise (strip_noise wc) = true) by apply forallb_filter.
  split; [exact H1|]. clear H1. split.
  - unfold strip_noise. induction wc as [|n wc IH]; cbn [filter]; [reflexivity|].
    destruct n as [v|t w|c|t l|r]; cbn [cleaner negb filter_templates];
      try exact IH.
    + destruct (negb (truthy (strip v))); cbn [negb filter_templates]; exact IH.
    + now rewrite IH.
  - apply strip_noise_settled, forallb_filter.
Qed.

Lemma link_free_unlink : forall n, forallb link_free (unlink n) = true.
Proof.
  induction n as [v|t|t w IH|nm ps IH|t lvl|raw] using Node_induction;
    try reflexivity.
  - cbn [unlink]. induction IH as [|x w Hx _ IHw]; cbn [flat_map]; [reflexivity|].
    rewrite forallb_app, Hx, IHw. reflexivity.
  - cbn [unlink forallb link_free]. rewrite andb_true_r.
    induction IH as [|q ps Hq _ IHps]; cbn [map forallb]; [reflexivity|].
    rewrite IHps, andb_true_r. destruct q as [k v sk]. cbn [value] in Hq.
    induction Hq as [|x v Hx _ IHv]; cbn [flat_map]; [reflexivity|].
    rewrite forallb_app, Hx, IHv. reflexivity.
Qed.

Lemma unlink_link_free : forall n, link_free n = true -> unlink n = [n].
Proof.
  induction n as [v|t|t w IH|nm ps IH|t lvl|raw] using Node_induction;
    try reflexivity; try discriminate.
  cbn [link_free unlink]. intros H. do 3 f_equal.
  induction IH as [|q ps Hq _ IHps]; cbn [map]; [reflexivity|].
  cbn [forallb] in H. apply andb_true_iff in H. destruct H as [Hv Hps].
  rewrite IHps by exact Hps. f_equal.
  destruct q as [k v sk]. cbn [value] in Hq. f_equal.
  induction Hq as [|x v Hx _ IHv]; cbn [flat_map]; [reflexivity|].
  cbn [forallb] in Hv. apply andb_true_iff in Hv. destruct Hv as [Hx' Hv].
  rewrite Hx, IHv by assumption. reflexivity.
Qed.

Lemma remove_links_link_free :
  forall wc, forallb link_free (remove_links wc) = true.
Proof.
  intros wc. unfold remove_links.
  induction wc as [|n wc IH]; cbn [flat_map]; [reflexivity|].
  rewrite forallb_app, link_free_unlink, IH. reflexivity.
Qed.

(** X14. After [remove_links] no hyperlink is left, neither at top level
    nor inside the arguments of constructs at any depth; a sequence without
    hyperlinks is returned as it is.  (Link titles, construct names and the
    nodes kept opaque are plain text here and hold no link.) *)
Theorem remove_links_complete :
  forall wc,
    forallb link_free (remove_links wc) = true /\
    (forallb link_free wc = true -> remove_links wc = wc).
Proof.
  intros wc. split; [apply remove_links_link_free|]. unfold remove_links.
  induction wc as [|n wc IH]; cbn [flat_map forallb]; [reflexivity|].
  intros H. apply andb_true_iff in H. destruct H as [Hn Hwc].
  rewrite (unlink_link_free n Hn), IH by exact Hwc. reflexivity.
Qed.

Lemma remove_links_complete_witness :
  forallb link_free [Text "see "; TemplateNode (construct "m" ["en"; "b"])] = true /\
  remove_links [Text "see "; TemplateNode (construct "m" ["en"; "b"])]
  = [Text "see "; TemplateNode (construct "m" ["en"; "b"])].
Proof.
  split; [reflexivity|].
  apply (proj2 (remove_links_complete
                  [Text "see "; TemplateNode (construct "m" ["en"; "b"])])).
  reflexivity.
Defined.

(** X15. Whatever [clean_wikicode] returns has no hyperlink at any depth. *)
Theorem clean_wikicode_link_free :
  forall wc out,
    clean_wikicode wc = Return out -> forallb link_free out = true.
Proof.
  intros wc out H. unfold clean_wikicode in H.
  destruct (merge_etyl_templates (strip_noise wc)) as [w1|]; [|discriminate].
  cbn [bind] in H.
  destruct (get_plus_combos w1) as [w2|]; [|discriminate]. cbn [bind] in H.
  destruct (get_comma_combos w2) as [w3|]; [|discriminate]. cbn [bind] in H.
  destruct (get_from_chains w3) as [w4|]; [|discriminate]. cbn [bind] in H.
  injection H as <-. apply remove_links_link_free.
Qed.

Lemma clean_wikicode_link_free_witness :
  clean_wikicode etyl_section
  = Return [TemplateNode (construct "derived-parsed" ["en"; "la"; "foo"]);
            Text " word "; Text "y"] /\
  forallb link_free [TemplateNode (construct "derived-parsed" ["en"; "la"; "foo"]);
                     Text " word "; Text "y"] = true.
Proof.
  split; [reflexivity|].
  apply (clean_wikicode_link_free etyl_section). reflexivity.
Defined.

(* ------------------------------------------------------------------ *)
(** ** The chains found by [combine_template_chains] *)

Section Chains.

Variable template_indices text_indices : list Z.

Let followed (i : Z) : Prop := mem (i + 1) text_indices = true.

Let good (chain : list Z) : Prop :=
  2 <= len chain /\ linked text_indices chain = true /\ incl chain template_indices.

Lemma linked_snoc :
  forall chain i, Forall followed chain -> linked text_indices (chain ++ [i]) = true.
Proof.
  induction chain as [|j chain IH]; intros i H; [reflexivity|].
  inversion H as [|j' chain' Hj Hc]; subst.
  cbn [app linked]. destruct (chain ++ [i]) as [|k rest] eqn:E.
  - destruct chain; discriminate.
  - rewrite <- E, (IH i Hc). unfold followed in Hj. now rewrite Hj.
Qed.

Lemma linked_all :
  forall chain, Forall followed chain -> linked text_indices chain = true.
Proof.
  induction chain as [|j chain IH]; intros H; [reflexivity|].
  inversion H as [|j' chain' Hj Hc]; subst.
  cbn [linked]. destruct chain as [|k rest]; [reflexivity|].
  rewrite (IH Hc). unfold followed in Hj. now rewrite Hj.
Qed.

Let invariant (st : chain_state) : Prop :=
  let '(index_combos, index_combo, combine) := st in
  Forall good index_combos /\ Forall followed index_combo /\
  incl index_combo template_indices.

Lemma chain_step_invariant :
  forall st i, In i template_indices -> invariant st ->
               invariant (chain_step text_indices st i).
Proof.
  intros [[combos combo] combine] i Hi (Hcombos & Hcombo & Hincl).
  unfold chain_step.
  destruct (mem (i + 1) text_indices) eqn:E; cbn [orb negb].
  - (* the construct is followed by a connector: it joins and the chain stays open *)
    repeat split; [exact Hcombos| |].
    + apply Forall_app. split; [exact Hcombo|]. constructor; [exact E|constructor].
    + apply incl_app; [exact Hincl|]. intros k [<-|[]]. exact Hi.
  - (* it is not: the chain, with or without it, is closed *)
    set (closed := if mem (i - 2) combo && combine then combo ++ [i] else combo).
    assert (Hgood : 1 < len closed -> good closed).
    { intros Hlen. unfold good. split; [lia|]. subst closed.
      destruct (mem (i - 2) combo && combine).
      - split; [now apply linked_snoc|].
        apply incl_app; [exact Hincl|]. intros k [<-|[]]. exact Hi.
      - split; [now apply linked_all|exact Hincl]. }
    cbn [invariant]. destruct (1 <? len closed) eqn:L.
    + repeat split; try constructor.
      apply Forall_app. split; [exact Hcombos|].
      constructor; [|constructor]. apply Hgood. now apply Z.ltb_lt.
      intros k [].
    + repeat split; try constructor; [exact Hcombos|intros k []].
Qed.

Lemma chain_steps_invariant :
  forall l st, incl l template_indices -> invariant st ->
               invariant (fold_left (chain_step text_indices) l st).
Proof.
  induction l as [|i l IH]; intros st Hl Hst; cbn [fold_left]; [exact Hst|].
  apply IH.
  - intros k Hk. apply Hl. now right.
  - apply chain_step_invariant; [apply Hl; now left|exact Hst].
Qed.

Lemma index_chains_members :
  forall chain,
    In chain (index_chains template_indices text_indices) ->
    2 <= len chain /\
    linked text_indices chain = true /\
    incl chain template_indices.
Proof.
  intros chain H. unfold index_chains in H.
  pose proof (chain_steps_invariant template_indices ([], [], false)
                (incl_refl _)) as Inv.
  destruct (fold_left (chain_step text_indices) template_indices ([], [], false))
    as [[combos combo] combine].
  destruct Inv as (Hcombos & Hcombo & Hincl).
  { repeat split; try constructor. intros k []. }
  rewrite Forall_forall in Hcombos.
  destruct (1 <? len combo) eqn:L.
  - apply in_app_or in H. destruct H as [H|[<-|[]]]; [exact (Hcombos chain H)|].
    apply Z.ltb_lt in L. split; [lia|]. split; [now apply linked_all|exact Hincl].
  - exact (Hcombos chain H).
Qed.

End Chains.

(** X16. Every chain [combine_template_chains] decides to merge has at
    least two members, all taken from [template_indices], and each member
    but the last is immediately followed by a position of [text_indices]. *)
Theorem index_chains_sound :
  forall template_indices text_indices chain,
    In chain (index_chains template_indices text_indices) ->
    2 <= len chain /\
    linked text_indices chain = true /\
    incl chain template_indices.
Proof.
  intros template_indices text_indices chain H.
  exact (index_chains_members template_indices text_indices chain H).
Qed.

Lemma index_chains_sound_witness :
  In [0; 2; 4] (index_chains [0; 2; 4; 7] [1; 3]) /\
  2 <= len [0; 2; 4] /\
  linked [1; 3] [0; 2; 4] = true /\
  incl [0; 2; 4] [0; 2; 4; 7].
Proof.
  assert (H : In [0; 2; 4] (index_chains [0; 2; 4; 7] [1; 3])) by (now left).
  split; [exact H|].
  exact (index_chains_sound [0; 2; 4; 7] [1; 3] [0; 2; 4] H).
Defined.

(* ------------------------------------------------------------------ *)
(** ** [etyl] constructs the normalizer cannot complete *)


Lemma etyl_first_index :
  forall etyl n rest,
    name etyl = "etyl" ->
    exists others,
      indices_where (is_etyl_at (len (TemplateNode etyl :: n :: rest)))
                    (TemplateNode etyl :: n :: rest) = 0 :: others.
Proof.
  intros etyl n rest H. unfold indices_where, enumerate.
  cbn [enumerate_from filter fst snd is_etyl_at]. rewrite H.
  assert (E : (0 <? len (TemplateNode etyl :: n :: rest) - 1) = true).
  { apply Z.ltb_lt. unfold len. cbn [length]. lia. }
  rewrite E. cbn [String.eqb Ascii.eqb Bool.eqb andb map fst].
  eexists. reflexivity.
Qed.

Lemma merge_etyl_no_argument :
  forall n rest,
    merge_etyl_templates (TemplateNode (mkTemplate "etyl" []) :: n :: rest)
    = Raise IndexError.
Proof.
  intros n rest. unfold merge_etyl_templates.
  destruct (etyl_first_index (mkTemplate "etyl" []) n rest eq_refl) as [others E].
  rewrite E. reflexivity.
Qed.

(** X17. An [etyl] construct without any argument that is followed by a
    node makes [merge_etyl_templates] raise [IndexError]; so does an [etyl]
    construct followed by a mention-like construct without any argument. *)
Theorem etyl_without_arguments :
  forall n rest,
    merge_etyl_templates (TemplateNode (mkTemplate "etyl" []) :: n :: rest)
    = Raise IndexError /\
    forall q qs mname,
      name_in mname mention_names = true ->
      merge_etyl_templates
        (TemplateNode (mkTemplate "etyl" (q :: qs))
         :: TemplateNode (mkTemplate mname []) :: rest)
      = Raise IndexError.
Proof.
  intros n rest. split.
  - apply merge_etyl_no_argument.
  - intros q qs mname Hm. unfold merge_etyl_templates.
    destruct (etyl_first_index (mkTemplate "etyl" (q :: qs))
                (TemplateNode (mkTemplate mname [])) rest eq_refl) as [others E].
    rewrite E. cbn [for_state]. unfold etyl_step.
    rewrite index_0, index_1. cbn [bind params].
    rewrite index_0. cbn [bind].
    assert (L : exists language,
               (if len (q :: qs) =? 1 then Return (PStr "en")
                else q' <- index (q :: qs) 1 ;; Return (PParam q'))
               = Return language).
    { destruct qs as [|q' qs'].
      - now exists (PStr "en").
      - assert (E1 : (len (q :: q' :: qs') =? 1) = false).
        { apply Z.eqb_neq. unfold len. cbn [length]. lia. }
        rewrite E1, index_1. now exists (PParam q'). }
    destruct L as [language ->]. cbn [bind].
    unfold inspect_next. cbn [name params]. rewrite Hm. reflexivity.
Qed.

Lemma etyl_without_arguments_witness :
  name_in "m" mention_names = true /\
  merge_etyl_templates
    [TemplateNode (construct "etyl" ["la"; "en"]); TemplateNode (mkTemplate "m" []);
     Text "x"]
  = Raise IndexError.
Proof.
  split; [reflexivity|].
  exact (proj2 (etyl_without_arguments (Text "x") [Text "x"])
           (mkParam "1" [Text "la"] false) [mkParam "2" [Text "en"] false] "m" eq_refl).
Defined.





(* ------------------------------------------------------------------ *)
(** ** [etyl] completed by a mention *)

Lemma mention_is_not_etyl :
  forall mname, name_in mname mention_names = true -> String.eqb mname "etyl" = false.
Proof.
  intros mname H. unfold name_in, mention_names in H. cbn [existsb] in H.
  repeat (apply orb_prop in H; destruct H as [H|H]);
    try discriminate; apply String.eqb_eq in H; subst; reflexivity.
Qed.

Lemma no_etyl_positions :
  forall rest k n,
    forallb (fun x => negb (is_etyl x)) rest = true ->
    map fst (filter (fun ix : Z * Node => is_etyl_at n (fst ix) (snd ix))
                    (enumerate_from k rest)) = [].
Proof.
  induction rest as [|x rest IH]; intros k n H; [reflexivity|].
  cbn [forallb] in H. apply andb_true_iff in H. destruct H as [Hx Hrest].
  cbn [enumerate_from filter fst snd].
  assert (E : is_etyl_at n k x = false).
  { destruct x as [v|t w|c|t l|r]; try reflexivity.
    cbn [is_etyl_at is_etyl] in *. apply negb_true_iff in Hx. now rewrite Hx. }
  rewrite E. now apply IH.
Qed.

Lemma keep_after_second :
  forall (A : Type) (rest : list A) k,
    2 <= k ->
    map snd (filter (fun ix : Z * A => negb (mem (fst ix) [1])) (enumerate_from k rest))
    = rest.
Proof.
  intros A rest. induction rest as [|x rest IH]; intros k Hk; [reflexivity|].
  cbn [enumerate_from filter fst snd mem existsb].
  assert (E : (k =? 1) = false) by (apply Z.eqb_neq; lia).
  rewrite E. cbn [orb negb map snd]. f_equal. apply IH. lia.
Qed.

Lemma remove_second :
  forall (A : Type) (a b : A) rest, remove_positions [1] (a :: b :: rest) = a :: rest.
Proof.
  intros A a b rest. unfold remove_positions, enumerate.
  cbn [enumerate_from filter fst snd].
  change (mem 0 [1]) with false. change (mem (0 + 1) [1]) with true.
  cbn [negb map snd]. f_equal.
  change (0 + 1 + 1) with 2. apply keep_after_second. lia.
Qed.

(** X19. When an [etyl] construct is followed by a mention-like construct
    ([m], [mention], [m+], [langname-mention], [l], [link]) with at least
    two arguments, and no other [etyl] follows, the pair is replaced by one
    [derived-parsed] construct: its first argument is the second argument of
    the [etyl] (["en"] when it has only one), its second argument the
    language of the mention - not the one of the [etyl] - and its third
    argument the term of the mention.  The rest of the sequence is kept. *)
Theorem etyl_before_mention :
  forall q qs mname m0 m1 ms rest,
    name_in mname mention_names = true ->
    forallb (fun x => negb (is_etyl x)) rest = true ->
    merge_etyl_templates
      (TemplateNode (mkTemplate "etyl" (q :: qs))
       :: TemplateNode (mkTemplate mname (m0 :: m1 :: ms)) :: rest)
    = Return
        (TemplateNode
           (mkTemplate "derived-parsed"
              [mkParam "1" match qs with
                           | [] => [Text "en"]
                           | q' :: _ => reparsed (PParam q')
                           end false;
               mkParam "2" (reparsed (PParam m0)) false;
               mkParam "3" (value m1) false])
         :: rest).
Proof.
  intros q qs mname m0 m1 ms rest Hm Hrest.
  unfold merge_etyl_templates.
  assert (E : indices_where
                (is_etyl_at (len (TemplateNode (mkTemplate "etyl" (q :: qs))
                                  :: TemplateNode (mkTemplate mname (m0 :: m1 :: ms))
                                  :: rest)))
                (TemplateNode (mkTemplate "etyl" (q :: qs))
                 :: TemplateNode (mkTemplate mname (m0 :: m1 :: ms)) :: rest)
              = [0]).
  { unfold indices_where, enumerate.
    cbn [enumerate_from filter fst snd is_etyl_at name].
    rewrite (mention_is_not_etyl mname Hm).
    match goal with |- context [0 <? ?x] =>
      assert (L : (0 <? x) = true) by (apply Z.ltb_lt; unfold len; cbn [length]; lia)
    end.
    rewrite L. cbn [String.eqb Ascii.eqb Bool.eqb andb map fst].
    f_equal. now apply no_etyl_positions. }
  rewrite E. cbn [for_state]. unfold etyl_step.
  rewrite index_0, index_1. cbn [bind params].
  rewrite index_0. cbn [bind].
  assert (L : (if len (q :: qs) =? 1 then Return (PStr "en")
               else q' <- index (q :: qs) 1 ;; Return (PParam q'))
              = Return match qs with [] => PStr "en" | q' :: _ => PParam q' end).
  { destruct qs as [|q' qs']; [reflexivity|].
    assert (E1 : (len (q :: q' :: qs') =? 1) = false).
    { apply Z.eqb_neq. unfold len. cbn [length]. lia. }
    now rewrite E1, index_1. }
  rewrite L. cbn [bind].
  unfold inspect_next. cbn [name params]. rewrite Hm, index_0. cbn [bind].
  assert (L2 : (1 <? len (m0 :: m1 :: ms)) = true).
  { apply Z.ltb_lt. unfold len. cbn [length]. lia. }
  rewrite L2, index_1. cbn [bind app].
  change (0 + 1) with 1. change (Z.to_nat 0) with 0%nat. cbn [replace_at].
  rewrite remove_second. do 3 f_equal. destruct qs; reflexivity.
Qed.

Lemma etyl_before_mention_witness :
  merge_etyl_templates
    [TemplateNode (construct "etyl" ["grc"]);
     TemplateNode (construct "m" ["la"; "vox"]); Text " voice"]
  = Return [TemplateNode (construct "derived-parsed" ["en"; "la"; "vox"]);
            Text " voice"].
Proof.
  apply (etyl_before_mention (mkParam "1" [Text "grc"] false) [] "m"
           (mkParam "1" [Text "la"] false) (mkParam "2" [Text "vox"] false) []
           [Text " voice"]); reflexivity.
Defined.

(* ------------------------------------------------------------------ *)
(** ** The driver over sections *)














(* ------------------------------------------------------------------ *)
(** ** Construct names *)







(* ------------------------------------------------------------------ *)
(** ** Splicing the chains into the sequence *)

Lemma enumerate_from_nth :
  forall (A : Type) (l : list A) k j x,
    In (j, x) (enumerate_from k l) ->
    k <= j /\ nth_error l (Z.to_nat (j - k)) = Some x.
Proof.
  intros A l. induction l as [|a l IH]; intros k j x H; cbn in H; [contradiction|].
  destruct H as [[= <- <-]|H].
  - split; [lia|]. now rewrite Z.sub_diag.
  - apply IH in H. destruct H as [Hk Hn]. split; [lia|].
    replace (Z.to_nat (j - k)) with (S (Z.to_nat (j - (k + 1)))) by lia.
    exact Hn.
Qed.

Lemma enumerate_from_fst_NoDup :
  forall (A : Type) (keep : Z * A -> bool) (l : list A) k,
    NoDup (map fst (filter keep (enumerate_from k l))).
Proof.
  intros A keep l. induction l as [|a l IH]; intros k; cbn [enumerate_from filter].
  - constructor.
  - destruct (keep (k, a)); [|apply IH].
    cbn [map fst]. constructor; [|apply IH].
    intros H. apply in_map_iff in H. destruct H as ([j x] & Hj & Hin).
    cbn [fst] in Hj. subst j. apply filter_In in Hin. destruct Hin as [Hin _].
    apply enumerate_from_lower in Hin. lia.
Qed.

Lemma template_positions_NoDup : forall wc, NoDup (template_positions wc).
Proof.
  intros wc. apply enumerate_from_fst_NoDup.
Qed.

Lemma template_positions_node :
  forall wc i,
    In i (template_positions wc) ->
    exists t, In (i, TemplateNode t) (enumerate wc).
Proof.
  intros wc i H. unfold template_positions, indices_where in H.
  apply in_map_iff in H. destruct H as ([j n] & Hj & Hin). cbn [fst] in Hj. subst j.
  apply filter_In in Hin. destruct Hin as [Hin Hk]. cbn [snd] in Hk.
  destruct n as [v|t w|t|t l|r]; try discriminate. now exists t.
Qed.

Lemma index_enumerated :
  forall (A : Type) (l : list A) i x, In (i, x) (enumerate l) -> index l i = Return x.
Proof.
  intros A l i x H. apply enumerate_from_nth in H. destruct H as [Hi Hn].
  rewrite Z.sub_0_r in Hn. unfold index.
  destruct (i <? 0) eqn:E; [apply Z.ltb_lt in E; lia|]. now rewrite E, Hn.
Qed.

Section Splice.

Variable wc : Wikicode.

(** The nodes that still carry their original position are the original
    nodes; those without one are constructs. *)
Let faithful (x : tagged) : Prop :=
  match fst x with
  | Some k => In (k, snd x) (enumerate wc)
  | None => is_template (snd x) = true
  end.

Let present (k : Z) (l : list tagged) : Prop := exists x, In x l /\ has_tag k x = true.

Lemma insert_before_present :
  forall k new l,
    present k l -> is_template new = true -> Forall faithful l ->
    exists l',
      insert_before k new l = Return l' /\
      Forall faithful l' /\
      (forall k', present k' l -> present k' l') /\
      other_nodes (map snd l') = other_nodes (map snd l).
Proof.
  intros k new l. induction l as [|x l IH]; intros (y & Hy & Hk) Hnew Hf.
  - contradiction.
  - cbn [insert_before]. destruct (has_tag k x) eqn:E.
    + exists ((None, new) :: x :: l). repeat split.
      * constructor; [exact Hnew|exact Hf].
      * intros k' (z & Hz & Hk'). exists z. split; [now right|exact Hk'].
      * unfold other_nodes. cbn [map snd filter]. now rewrite Hnew.
    + destruct Hy as [->|Hy]; [congruence|].
      inversion Hf as [|x' l0 Hx Hl]; subst.
      destruct (IH (ex_intro _ y (conj Hy Hk)) Hnew Hl) as (l' & E' & Hf' & Hp & Ho).
      rewrite E'. cbn [bind]. exists (x :: l'). repeat split.
      * constructor; assumption.
      * intros k' (z & [->|Hz] & Hk').
        -- exists z. split; [now left|exact Hk'].
        -- destruct (Hp k' (ex_intro _ z (conj Hz Hk'))) as (z' & Hz' & Hk'').
           exists z'. split; [now right|exact Hk''].
      * unfold other_nodes in *. cbn [map filter]. now rewrite Ho.
Qed.

Lemma remove_present :
  forall k l,
    present k l -> In k (template_positions wc) -> Forall faithful l ->
    exists l',
      remove k l = Return l' /\
      Forall faithful l' /\
      (forall k', k' <> k -> present k' l -> present k' l') /\
      other_nodes (map snd l') = other_nodes (map snd l).
Proof.
  intros k l. induction l as [|x l IH]; intros (y & Hy & Hk) HT Hf.
  - contradiction.
  - inversion Hf as [|x' l0 Hx Hl]; subst.
    cbn [remove]. destruct (has_tag k x) eqn:E.
    + exists l. repeat split; [exact Hl| |].
      * intros k' Hne (z & [->|Hz] & Hk').
        -- unfold has_tag in E, Hk'. destruct (fst z); [|discriminate].
           apply Z.eqb_eq in E, Hk'. congruence.
        -- now exists z.
      * (* the node removed is the construct at position [k] *)
        destruct x as [[j|] n]; [|discriminate].
        unfold has_tag in E. cbn [fst] in E. apply Z.eqb_eq in E. subst j.
        unfold faithful in Hx. cbn [fst snd] in Hx.
        destruct (template_positions_node wc k HT) as [t Ht].
        apply enumerate_from_nth in Hx, Ht.
        destruct Hx as [_ Hx], Ht as [_ Ht]. rewrite Hx in Ht. injection Ht as ->.
        reflexivity.
    + destruct Hy as [->|Hy]; [congruence|].
      destruct (IH (ex_intro _ y (conj Hy Hk)) HT Hl) as (l' & E' & Hf' & Hp & Ho).
      rewrite E'. cbn [bind]. exists (x :: l'). repeat split.
      * constructor; assumption.
      * intros k' Hne (z & [->|Hz] & Hk').
        -- exists z. split; [now left|exact Hk'].
        -- destruct (Hp k' Hne (ex_intro _ z (conj Hz Hk'))) as (z' & Hz' & Hk'').
           exists z'. split; [now right|exact Hk''].
      * unfold other_nodes in *. cbn [map filter]. now rewrite Ho.
Qed.

Lemma remove_all_present :
  forall (combo : list (Z * Node)) l (others : list Z),
    NoDup (map fst combo ++ others) ->
    (forall k, In k (map fst combo ++ others) -> present k l) ->
    incl (map fst combo) (template_positions wc) ->
    Forall faithful l ->
    exists l',
      for_state (fun acc (node : Z * Node) => remove (fst node) acc) combo l = Return l' /\
      Forall faithful l' /\
      (forall k, In k others -> present k l') /\
      other_nodes (map snd l') = other_nodes (map snd l).
Proof.
  induction combo as [|[k n] combo IH]; intros l others Hnd Hp HT Hf;
    cbn [for_state map fst app] in *.
  - exists l. repeat split; assumption.
  - inversion Hnd as [|k' rest Hk Hnd']; subst.
    destruct (remove_present k l) as (l1 & E1 & Hf1 & Hp1 & Ho1).
    + apply Hp. now left.
    + apply HT. now left.
    + exact Hf.
    + rewrite E1. cbn [bind].
      destruct (IH l1 others Hnd') as (l' & E' & Hf' & Hp' & Ho').
      * intros k' Hk'. apply Hp1.
        -- intros ->. contradiction.
        -- apply Hp. now right.
      * intros k' Hk'. apply HT. now right.
      * exact Hf1.
      * exists l'. repeat split; try assumption. now rewrite Ho'.
Qed.

Lemma splice_all :
  forall nm (combos : list (list (Z * Node))) l,
    Forall (fun combo => combo <> []) combos ->
    NoDup (concat (map (map fst) combos)) ->
    (forall k, In k (concat (map (map fst) combos)) -> present k l) ->
    incl (concat (map (map fst) combos)) (template_positions wc) ->
    Forall faithful l ->
    exists l',
      for_state (splice_combo nm) combos l = Return l' /\
      other_nodes (map snd l') = other_nodes (map snd l).
Proof.
  intros nm combos. induction combos as [|combo combos IH];
    intros l Hne Hnd Hp HT Hf; cbn [for_state map concat] in *.
  - now exists l.
  - inversion Hne as [|c cs Hc Hcs]; subst.
    destruct combo as [|[k n] combo]; [congruence|].
    unfold splice_combo at 1. rewrite index_0. cbn [bind fst].
    destruct (insert_before_present k
                (TemplateNode
                   (mkTemplate nm
                      (numbered_params (fun t : Z * Node => [snd t]) ((k, n) :: combo))))
                l) as (l1 & E1 & Hf1 & Hp1 & Ho1);
      [apply Hp; now left|reflexivity|exact Hf|].
    rewrite E1. cbn [bind].
    destruct (remove_all_present ((k, n) :: combo) l1
                (concat (map (map fst) combos))) as (l2 & E2 & Hf2 & Hp2 & Ho2).
    + exact Hnd.
    + intros k' Hk'. apply Hp1, Hp, Hk'.
    + intros k' Hk'. apply HT. apply in_or_app. now left.
    + exact Hf1.
    + rewrite E2. cbn [bind].
      destruct (IH l2 Hcs) as (l' & E' & Ho').
      * eapply NoDup_app_remove_l. exact Hnd.
      * exact Hp2.
      * intros k' Hk'. apply HT. apply in_or_app. now right.
      * exact Hf2.
      * exists l'. split; [exact E'|]. now rewrite Ho', Ho2, Ho1.
Qed.

End Splice.

Lemma chain_steps_NoDup :
  forall text_indices l combos combo combine,
    NoDup (concat combos ++ combo) ->
    (forall x, In x (concat combos ++ combo) -> ~ In x l) ->
    NoDup l ->
    let '(combos', combo', _) :=
      fold_left (chain_step text_indices) l (combos, combo, combine) in
    NoDup (concat combos' ++ combo').
Proof.
  intros text_indices l. induction l as [|i l IH];
    intros combos combo combine Hnd Hdis Hl; cbn [fold_left]; [exact Hnd|].
  inversion Hl as [|i' l' Hi Hl']; subst.
  assert (Hsnoc : NoDup (concat combos ++ combo ++ [i])).
  { rewrite app_assoc. apply NoDup_app; [exact Hnd|repeat constructor; intros []|].
    intros x Hx [->|[]]. apply (Hdis x Hx). now left. }
  assert (Hdis' : forall x, In x (concat combos ++ combo ++ [i]) -> ~ In x l).
  { intros x Hx. rewrite app_assoc in Hx. apply in_app_or in Hx.
    destruct Hx as [Hx|[->|[]]]; [|exact Hi].
    intros Hin. apply (Hdis x Hx). now right. }
  assert (Hdis0 : forall x, In x (concat combos ++ combo) -> ~ In x l).
  { intros x Hx Hin. apply (Hdis x Hx). now right. }
  unfold chain_step.
  destruct (mem (i + 1) text_indices); cbn [orb negb].
  - apply IH; assumption.
  - set (closed := if mem (i - 2) combo && combine then combo ++ [i] else combo).
    assert (Hclosed : NoDup (concat combos ++ closed) /\
                      forall x, In x (concat combos ++ closed) -> ~ In x l).
    { subst closed. destruct (mem (i - 2) combo && combine); split; assumption. }
    destruct Hclosed as [Hc1 Hc2].
    destruct (1 <? len closed).
    + assert (Heq : concat (combos ++ [closed]) ++ [] = concat combos ++ closed).
      { rewrite concat_app. cbn [concat]. now rewrite !app_nil_r. }
      apply IH; [now rewrite Heq| |exact Hl'].
      intros x Hx. rewrite Heq in Hx. now apply Hc2.
    + apply IH; [|intros x Hx; apply Hc2|exact Hl'].
      * rewrite app_nil_r. eapply NoDup_app_remove_r. exact Hc1.
      * rewrite app_nil_r in Hx. apply in_or_app. now left.
Qed.

Lemma index_chains_NoDup :
  forall template_indices text_indices,
    NoDup template_indices ->
    NoDup (concat (index_chains template_indices text_indices)).
Proof.
  intros template_indices text_indices H. unfold index_chains.
  pose proof (chain_steps_NoDup text_indices template_indices [] [] false) as Inv.
  destruct (fold_left (chain_step text_indices) template_indices ([], [], false))
    as [[combos combo] combine].
  cbn [concat app] in Inv.
  specialize (Inv (NoDup_nil _) (fun x (F : False) => match F with end) H).
  destruct (1 <? len combo).
  - rewrite concat_app. cbn [concat]. now rewrite app_nil_r.
  - eapply NoDup_app_remove_r. exact Inv.
Qed.

Lemma chain_nodes :
  forall wc chain,
    incl chain (template_positions wc) ->
    exists combo,
      for_each (fun i => n <- index wc i ;; Return (i, n)) chain = Return combo /\
      map fst combo = chain.
Proof.
  intros wc chain. induction chain as [|i chain IH]; intros H; cbn [for_each].
  - now exists [].
  - destruct (template_positions_node wc i) as [t Ht]; [apply H; now left|].
    rewrite (index_enumerated _ wc i _ Ht). cbn [bind].
    destruct IH as (combo & E & Hm); [intros k Hk; apply H; now right|].
    rewrite E. exists ((i, TemplateNode t) :: combo). split; [reflexivity|].
    cbn [map fst]. now rewrite Hm.
Qed.

Lemma chains_nodes :
  forall wc chains,
    Forall (fun chain => incl chain (template_positions wc)) chains ->
    exists combos,
      for_each (fun chain => for_each (fun i => n <- index wc i ;; Return (i, n)) chain)
               chains = Return combos /\
      map (map fst) combos = chains.
Proof.
  intros wc chains H. induction H as [|chain chains Hc _ IH]; cbn [for_each].
  - now exists [].
  - destruct (chain_nodes wc chain Hc) as (combo & E & Hm). rewrite E.
    destruct IH as (combos & E' & Hm'). rewrite E'.
    exists (combo :: combos). split; [reflexivity|]. cbn [map]. now rewrite Hm, Hm'.
Qed.

Lemma combine_keeps_other_nodes :
  forall wc nm text_indices,
    exists out,
      combine_template_chains wc nm (template_positions wc) text_indices = Return out /\
      other_nodes out = other_nodes wc.
Proof.
  intros wc nm text_indices. unfold combine_template_chains.
  set (chains := index_chains (template_positions wc) text_indices).
  assert (Hsound : forall chain, In chain chains ->
                     2 <= len chain /\ incl chain (template_positions wc)).
  { intros chain Hin.
    destruct (index_chains_members _ _ chain Hin) as (H2 & _ & Hincl). now split. }
  destruct (chains_nodes wc chains) as (combos & E & Hm).
  { apply Forall_forall. intros chain Hin. apply (Hsound chain Hin). }
  rewrite E. cbn [bind].
  destruct (splice_all wc nm combos
              (map (fun ix : Z * Node => (Some (fst ix), snd ix)) (enumerate wc)))
    as (l' & E' & Ho).
  - apply Forall_forall. intros combo Hin ->.
    assert (Hc : In (map fst (@nil (Z * Node))) chains)
      by (rewrite <- Hm; now apply in_map).
    destruct (Hsound _ Hc) as [H2 _]. cbn in H2. lia.
  - rewrite Hm. apply index_chains_NoDup, template_positions_NoDup.
  - rewrite Hm. intros k Hk. apply in_concat in Hk. destruct Hk as (chain & Hc & Hk).
    destruct (Hsound chain Hc) as [_ Hincl].
    destruct (template_positions_node wc k (Hincl k Hk)) as [t Ht].
    exists (Some k, TemplateNode t). split.
    + apply in_map_iff. now exists (k, TemplateNode t).
    + unfold has_tag. cbn [fst]. apply Z.eqb_refl.
  - rewrite Hm. intros k Hk. apply in_concat in Hk. destruct Hk as (chain & Hc & Hk).
    now apply (Hsound chain Hc).
  - apply Forall_forall. intros x Hx. apply in_map_iff in Hx.
    destruct Hx as ([k n] & <- & Hin). exact Hin.
  - rewrite E'. cbn [bind]. exists (map snd l'). split; [reflexivity|].
    rewrite Ho, map_map. cbn [snd]. fold (@snd Z Node).
    unfold enumerate. now rewrite enumerate_from_snd.
Qed.

(** X23. The three chain passes never raise, and they leave the nodes that
    are not constructs - the connector tokens among them - in the sequence,
    in their order. *)
Theorem chain_passes_keep_other_nodes :
  forall wc,
    (exists out, get_plus_combos wc = Return out /\ other_nodes out = other_nodes wc) /\
    (exists out, get_comma_combos wc = Return out /\ other_nodes out = other_nodes wc) /\
    (exists out, get_from_chains wc = Return out /\ other_nodes out = other_nodes wc).
Proof.
  intros wc. repeat split; apply combine_keeps_other_nodes.
Qed.

(* ------------------------------------------------------------------ *)
(** ** When the normalizer and the driver return *)

Lemma index_in_range :
  forall (A : Type) (l : list A) j,
    0 <= j < len l -> exists a, index l j = Return a /\ In a l.
Proof.
  intros A l j [H0 H1]. unfold index.
  destruct (j <? 0) eqn:E; [apply Z.ltb_lt in E; lia|]. rewrite E.
  destruct (nth_error l (Z.to_nat j)) as [a|] eqn:N.
  - exists a. split; [reflexivity|]. eapply nth_error_In. exact N.
  - apply nth_error_None in N. unfold len in H1. lia.
Qed.

Section EtylLoop.

(** During the loop a node is either the original one or a
    [derived-parsed] construct with arguments. *)
Let settled (n n' : Node) : Prop :=
  n' = n \/
  exists ps, n' = TemplateNode (mkTemplate "derived-parsed" ps) /\ ps <> [].

Lemma settled_index :
  forall l l' i a,
    Forall2 settled l l' -> index l i = Return a ->
    exists a', index l' i = Return a' /\ settled a a'.
Proof.
  intros l l' i a H.
  assert (Hlen : len l' = len l) by (unfold len; now rewrite (Forall2_length H)).
  unfold index. rewrite Hlen.
  destruct ((if i <? 0 then i + len l else i) <? 0); [discriminate|].
  generalize (Z.to_nat (if i <? 0 then i + len l else i)). clear i Hlen.
  induction H as [|x x' l l' Hx _ IH]; intros [|k] E; cbn in *; try discriminate.
  - injection E as <-. now exists x'.
  - now apply IH.
Qed.

Lemma settled_replace_at :
  forall l l' k x,
    Forall2 settled l l' ->
    (forall a, nth_error l k = Some a -> settled a x) ->
    Forall2 settled l (replace_at k x l').
Proof.
  intros l l' k x H. revert k. induction H as [|a a' l l' Ha Hl IH]; intros k Hx.
  - destruct k; constructor.
  - destruct k as [|k]; cbn [replace_at].
    + constructor; [now apply Hx|exact Hl].
    + constructor; [exact Ha|]. apply IH. intros b Hb. now apply Hx.
Qed.

Lemma inspect_next_returns :
  forall i q node,
    has_argument node = true \/
    (exists ps, node = TemplateNode (mkTemplate "derived-parsed" ps)) ->
    exists r, inspect_next i q node = Return r.
Proof.
  intros i q node H. unfold inspect_next.
  destruct node as [v|t w|t|t l|r]; try (eexists; reflexivity).
  - rewrite re_split_first. eexists. reflexivity.
  - rewrite re_split_first. eexists. reflexivity.
  - destruct (name_in (name t) mention_names) eqn:Hm; [|eexists; reflexivity].
    destruct H as [H|[ps [= ->]]]; [|discriminate].
    cbn [has_argument] in H. rewrite Hm, orb_true_r in H.
    destruct (params t) as [|p0 [|p1 ps]]; [discriminate| |].
    + eexists. reflexivity.
    + rewrite index_0. cbn [bind].
      assert (E : (1 <? len (p0 :: p1 :: ps)) = true)
        by (apply Z.ltb_lt; unfold len; cbn [length]; lia).
      rewrite E, index_1. eexists. reflexivity.
Qed.

Lemma etyl_steps_return :
  forall (wc : Wikicode) l (wc' : Wikicode) removed,
    forallb has_argument wc = true ->
    (forall i, In i l ->
       exists n, In (i, n) (enumerate wc) /\ is_etyl_at (len wc) i n = true) ->
    Forall2 settled wc wc' ->
    exists st, for_state etyl_step l (wc', removed) = Return st.
Proof.
  intros wc l. induction l as [|i l IH]; intros wc' removed Hok Hl Hs;
    cbn [for_state].
  - eexists. reflexivity.
  - destruct (Hl i (or_introl eq_refl)) as (n & Hin & He).
    destruct n as [v|t w|etyl|t lv|r]; try discriminate.
    cbn [is_etyl_at] in He. apply andb_true_iff in He. destruct He as [Hname Hlt].
    apply Z.ltb_lt in Hlt.
    pose proof (enumerate_from_lower _ _ _ _ _ Hin) as H0.
    rewrite forallb_forall in Hok.
    (* the node at [i] *)
    assert (Hetyl : has_argument (TemplateNode etyl) = true).
    { apply Hok. apply enumerate_from_nth in Hin. destruct Hin as [_ Hn].
      eapply nth_error_In. exact Hn. }
    cbn [has_argument] in Hetyl. rewrite Hname in Hetyl. cbn [orb] in Hetyl.
    destruct (settled_index wc wc' i _ Hs (index_enumerated _ wc i _ Hin))
      as (n' & En' & Sn').
    assert (Hn' : exists t, n' = TemplateNode t /\ params t <> []).
    { destruct Sn' as [->|(ps & -> & Hps)].
      - exists etyl. split; [reflexivity|]. destruct (params etyl); congruence.
      - now exists (mkTemplate "derived-parsed" ps). }
    destruct Hn' as (t & -> & Hps).
    (* the node after it *)
    destruct (index_in_range _ wc (i + 1)) as (m & Em & Hm); [lia|].
    destruct (settled_index wc wc' (i + 1) m Hs Em) as (m' & Em' & Sm').
    assert (Hm' : has_argument m' = true \/
                  exists ps, m' = TemplateNode (mkTemplate "derived-parsed" ps)).
    { destruct Sm' as [->|(ps & -> & _)]; [left; now apply Hok|right; now exists ps]. }
    unfold etyl_step. rewrite En'. cbn [bind].
    destruct (params t) as [|q qs] eqn:Eps; [congruence|].
    rewrite index_0. cbn [bind].
    assert (L : exists language,
               (if len (q :: qs) =? 1 then Return (PStr "en")
                else q' <- index (q :: qs) 1 ;; Return (PParam q'))
               = Return language).
    { destruct qs as [|q' qs'].
      - now exists (PStr "en").
      - assert (E1 : (len (q :: q' :: qs') =? 1) = false)
          by (apply Z.eqb_neq; unfold len; cbn [length]; lia).
        rewrite E1, index_1. now exists (PParam q'). }
    destruct L as [language ->]. cbn [bind]. rewrite Em'. cbn [bind].
    destruct (inspect_next_returns i q m' Hm') as ([[[make rl] val] rm] & ->).
    cbn [bind]. assert (Hl' : forall j, In j l ->
             exists n, In (j, n) (enumerate wc) /\ is_etyl_at (len wc) j n = true)
      by (intros j Hj; apply Hl; now right).
    destruct make; cbn [bind].
    + apply IH; try assumption.
      * apply forallb_forall. exact Hok.
      * apply settled_replace_at; [exact Hs|]. intros a _. right.
        eexists. split; [reflexivity|]. discriminate.
    + apply IH; try assumption. apply forallb_forall. exact Hok.
Qed.

End EtylLoop.

Lemma merge_etyl_returns :
  forall wc : Wikicode,
    forallb has_argument wc = true ->
    exists out, merge_etyl_templates wc = Return out.
Proof.
  intros wc H. unfold merge_etyl_templates.
  destruct (etyl_steps_return wc (indices_where (is_etyl_at (len wc)) wc) wc [] H)
    as ([wc' removed] & E).
  - intros i Hi. unfold indices_where in Hi. apply in_map_iff in Hi.
    destruct Hi as ([j n] & Hj & Hin). cbn [fst] in Hj. subst j.
    apply filter_In in Hin. now exists n.
  - clear H. induction wc as [|n wc IH]; constructor; [now left|exact IH].
  - cbv zeta. rewrite E. eexists. reflexivity.
Qed.


Lemma clean_wikicode_total :
  forall wc : Wikicode,
    forallb has_argument wc = true ->
    exists out, clean_wikicode wc = Return out.
Proof.
  intros wc H. unfold clean_wikicode.
  destruct (merge_etyl_returns (strip_noise wc)) as [w1 E1].
  { apply forallb_forall. intros n Hn. apply filter_In in Hn.
    rewrite forallb_forall in H. apply H, Hn. }
  rewrite E1. cbn [bind].
  destruct (combine_keeps_other_nodes w1 "affix-parsed"
              (indices_where (is_text_where is_plus_str) w1)) as (w2 & E2 & _).
  unfold get_plus_combos. rewrite E2. cbn [bind].
  destruct (combine_keeps_other_nodes w2 "related-parsed"
              (indices_where (is_text_where is_comma_str) w2)) as (w3 & E3 & _).
  unfold get_comma_combos. rewrite E3. cbn [bind].
  destruct (combine_keeps_other_nodes w3 "from-parsed"
              (indices_where (is_text_where is_inheritance_str) w3)) as (w4 & E4 & _).
  unfold get_from_chains. rewrite E4. cbn [bind].
  eexists. reflexivity.
Qed.

(** X24. [clean_wikicode] returns whenever every top-level [etyl] construct
    and every top-level mention-like construct of the sequence has at least
    one argument: on the node sequences of [Mwp] nothing else in the
    normalizer raises. *)
Theorem clean_wikicode_returns :
  forall wc : Wikicode,
    forallb has_argument wc = true ->
    exists out, clean_wikicode wc = Return out.
Proof.
  exact clean_wikicode_total.
Qed.

Lemma clean_wikicode_returns_witness :
  forallb has_argument two_plus_chains = true /\
  exists out, clean_wikicode two_plus_chains = Return out.
Proof.
  split; [reflexivity|].
  apply (clean_wikicode_returns two_plus_chains). reflexivity.
Defined.




(* ------------------------------------------------------------------ *)
(** ** Sibling interpreters and sibling branches *)

(** X27. On a construct with at least three positional arguments
    [derived_parsed] returns what [derived] returns. *)
Theorem derived_parsed_agrees :
  forall term lang template i,
    3 <= len (positional template) ->
    derived_parsed term lang template i = derived term lang template i.
Proof.
  intros term lang template i H. unfold derived_parsed, derived, source_pair.
  destruct (len (positional template) <? 3) eqn:E;
    [apply Z.ltb_lt in E; lia|reflexivity].
Qed.

Lemma derived_parsed_agrees_witness :
  3 <= len (positional (construct "derived-parsed" ["en"; "la"; "vox"])) /\
  derived_parsed "voice" "English" (construct "derived-parsed" ["en"; "la"; "vox"]) 0
  = Return (One (new "voice" "English" "derived_from" (Some "la") (Some "vox") 0 0)) /\
  derived "voice" "English" (construct "derived-parsed" ["en"; "la"; "vox"]) 0
  = Return (One (new "voice" "English" "derived_from" (Some "la") (Some "vox") 0 0)).
Proof.
  assert (H : 3 <= len (positional (construct "derived-parsed" ["en"; "la"; "vox"])))
    by discriminate.
  split; [exact H|]. split.
  - reflexivity.
  - rewrite <- (derived_parsed_agrees "voice" "English"
                  (construct "derived-parsed" ["en"; "la"; "vox"]) 0 H).
    reflexivity.
Defined.

Lemma morpheme_records_rendering :
  forall term lang rt rl i ms ms',
    map str_parameter ms = map str_parameter ms' ->
    morpheme_records term lang rt rl i ms = morpheme_records term lang rt rl i ms'.
Proof.
  intros term lang rt rl i ms. unfold morpheme_records, enumerate. generalize 0.
  induction ms as [|m ms IH]; intros k [|m' ms'] H; try discriminate.
  - reflexivity.
  - cbn [map] in H. injection H as Hm Hms.
    cbn [enumerate_from map fst snd]. now rewrite Hm, (IH (k + 1) ms' Hms).
Qed.

(** X28. [root] generalizes [pie_root]: when the second positional argument
    of a [root] construct renders as ["ine-pro"], the records are those
    [pie_root] gives for a construct that has, after its first positional
    argument, arguments with the renderings of the remaining ones. *)
Theorem root_generalizes_pie_root :
  forall term lang template template' i l x morphemes,
    positional template = l :: x :: morphemes ->
    str_parameter x = "ine-pro" ->
    map str_parameter (tl (positional template')) = map str_parameter morphemes ->
    root term lang template i = pie_root term lang template' i.
Proof.
  intros term lang template template' i l x morphemes H Hx H'.
  rewrite pie_root_eval.
  rewrite (morpheme_records_rendering term lang Root "ine-pro" i _ _ H').
  unfold root. rewrite H.
  change (slice (l :: x :: morphemes) 2 None)
    with (slice ([l; x] ++ morphemes) (len [l; x]) None).
  rewrite slice_tail.
  rewrite (morpheme_loop term lang Root "ine-pro" i (l :: x :: morphemes) 1 morphemes).
  - reflexivity.
  - unfold str_at. rewrite index_1. cbn [bind]. now rewrite Hx.
Qed.

Lemma root_generalizes_pie_root_witness :
  root "bear" "English" (construct "root" ["en"; "ine-pro"; "*bher-"]) 0
  = pie_root "bear" "English" (construct "PIE root" ["en"; "*bher-"]) 0.
Proof.
  apply (root_generalizes_pie_root "bear" "English"
           (construct "root" ["en"; "ine-pro"; "*bher-"])
           (construct "PIE root" ["en"; "*bher-"]) 0
           (mkParam "1" [Text "en"] false) (mkParam "2" [Text "ine-pro"] false)
           [mkParam "3" [Text "*bher-"] false]).
  - reflexivity.
  - reflexivity.
  - reflexivity.
Defined.

Lemma inspect_next_link :
  forall i q title text,
    inspect_next i q (Wikilink title text) = Return (false, q, PStr "", []).
Proof.
  intros i q title text. unfold inspect_next. rewrite re_split_first. reflexivity.
Qed.

(** X29. An [etyl] construct with at least one argument followed by a
    hyperlink is removed and nothing takes its place, whatever the link: as
    for a text, the first piece of the split of the link's text or title is
    the empty string.  The link stays. *)
Theorem etyl_before_link_is_dropped :
  forall q qs title text,
    merge_etyl_templates [TemplateNode (mkTemplate "etyl" (q :: qs)); Wikilink title text]
    = Return [Wikilink title text].
Proof.
  intros q qs title text.
  unfold merge_etyl_templates.
  change (indices_where _ _) with [0].
  cbn [for_state]. unfold etyl_step.
  rewrite index_0, index_1. cbn [bind params].
  rewrite index_0. cbn [bind].
  rewrite inspect_next_link.
  destruct qs as [|q' qs'].
  - reflexivity.
  - assert (E : (len (q :: q' :: qs') =? 1) = false).
    { apply Z.eqb_neq. unfold len. cbn [length]. lia. }
    rewrite E, index_1. reflexivity.
Qed.
